(** * Analytics engine of the data-platform API service

    A shallow embedding of the analyzers of [src/app/api_service.py]
    ([get_churn_metrics], [get_anomaly_metrics], [get_high_value_customers],
    [get_revenue_analytics], [get_customer_analytics]) and of [load_data],
    with the properties the specification states about them and further
    properties read off the code.

    Conventions of the embedding.
    - A finite float is an exact rational ([Q]); binary rounding error is
      not tracked.  The non-finite values that pandas/numpy produce
      (NaN for the mean of an empty column, the standard deviation of fewer
      than two values and the quantile of an empty column; infinities for a
      division by zero) are the extra constructors of [float].  The sign of
      a zero is not tracked: a zero divisor is taken as +0.
    - Where a property hinges on the last bits of a float, the computation
      is replayed in IEEE 754 binary64 ([binary64], the kernel's primitive
      floats): the amount threshold of the anomaly detector, whose
      comparison [amount > threshold] is decided by those bits.  The
      properties of the trend aggregator that relate rounded figures (the
      sum of the bucket revenues, the growth rate) are stated with a
      margin that binary rounding error does not reach on currency
      amounts.
    - A timestamp is the number of seconds since 1970-01-01T00:00:00.
    - A raised Python exception is the [Raise] constructor of [result];
      [try ... except Exception] is [try_except]. *)

From Stdlib Require Import ZArith QArith Qround Qreduction Qabs List Bool String.
From Stdlib Require Import Ascii DecimalString.
From Stdlib Require Import Lia Permutation Sorting.Sorted.
From Stdlib Require Import Reals Qreals R_sqrt.
From Stdlib Require Lqa Lra.
From Stdlib Require Floats.
Import ListNotations.

Local Open Scope Z_scope.
Local Open Scope Q_scope.

(** ** Floats *)

Inductive float : Type :=
| Fin (q : Q)
| PInf
| NInf
| NaN.

Module Float.

Definition neg (x : float) : float :=
  match x with
  | Fin q => Fin (- q)
  | PInf => NInf
  | NInf => PInf
  | NaN => NaN
  end.

Definition add (x y : float) : float :=
  match x, y with
  | NaN, _ | _, NaN => NaN
  | Fin a, Fin b => Fin (a + b)
  | PInf, NInf | NInf, PInf => NaN
  | PInf, _ | _, PInf => PInf
  | NInf, _ | _, NInf => NInf
  end.

Definition sub (x y : float) : float := add x (neg y).

(** An infinity of the sign of [q]; NaN when [q] is zero. *)
Definition signed_inf (q : Q) : float :=
  match q ?= 0 with
  | Gt => PInf
  | Lt => NInf
  | Eq => NaN
  end.

Definition mul (x y : float) : float :=
  match x, y with
  | NaN, _ | _, NaN => NaN
  | Fin a, Fin b => Fin (a * b)
  | Fin a, PInf | PInf, Fin a => signed_inf a
  | Fin a, NInf | NInf, Fin a => signed_inf (- a)
  | PInf, PInf | NInf, NInf => PInf
  | PInf, NInf | NInf, PInf => NaN
  end.

(** numpy float64 division: a zero divisor gives an infinity (or NaN for
    0/0) and a warning, not an exception. *)
Definition div (x y : float) : float :=
  match x, y with
  | NaN, _ | _, NaN => NaN
  | Fin a, Fin b => if Qeq_bool b 0 then signed_inf a else Fin (a / b)
  | Fin _, (PInf | NInf) => Fin 0
  | PInf, Fin b => if Qle_bool 0 b then PInf else NInf
  | NInf, Fin b => if Qle_bool 0 b then NInf else PInf
  | (PInf | NInf), (PInf | NInf) => NaN
  end.

(** Comparisons; every comparison with NaN is false. *)
Definition ltb (x y : float) : bool :=
  match x, y with
  | NaN, _ | _, NaN => false
  | Fin a, Fin b => negb (Qle_bool b a)
  | NInf, NInf => false
  | NInf, _ => true
  | _, PInf => match x with PInf => false | _ => true end
  | _, _ => false
  end.

Definition leb (x y : float) : bool :=
  match x, y with
  | NaN, _ | _, NaN => false
  | Fin a, Fin b => Qle_bool a b
  | NInf, _ => true
  | _, PInf => true
  | _, _ => false
  end.

Definition gtb (x y : float) : bool := ltb y x.
Definition geb (x y : float) : bool := leb y x.

Definition is_finite (x : float) : bool :=
  match x with Fin _ => true | _ => false end.

End Float.

(** ** Rounding to two decimals

    [round(x, 2)] and [DataFrame.round(2)]: scale by 100, round to the
    nearest integer with ties to even, scale back. *)

Definition rint (q : Q) : Z :=
  let f := Qfloor q in
  match ((q - inject_Z f) ?= (1 # 2))%Q with
  | Lt => f
  | Gt => (f + 1)%Z
  | Eq => if Z.even f then f else (f + 1)%Z
  end.

Definition round2 (q : Q) : Q := Qred (inject_Z (rint (q * 100)) / 100).

Definition fround2 (x : float) : float :=
  match x with
  | Fin q => Fin (round2 q)
  | _ => x
  end.

(** ** Column reductions *)

(** [Series.sum()]; the running total is kept in lowest terms. *)
Definition Qsum (l : list Q) : Q :=
  fold_right (fun x acc => Qred (x + acc)) 0 l.

Definition len {A : Type} (l : list A) : Z := Z.of_nat (List.length l).

(** [Series.mean()]: NaN on an empty column. *)
Definition mean (l : list Q) : float :=
  match l with
  | [] => NaN
  | _ => Fin (Qsum l / inject_Z (len l))
  end.

(** The square of [Series.std()] (sample variance, ddof = 1): NaN, here
    [None], with fewer than two values. *)
Definition sample_var (l : list Q) : option Q :=
  match l with
  | [] | [_] => None
  | _ =>
      let m := Qsum l / inject_Z (len l) in
      Some (Qsum (map (fun x => (x - m) * (x - m)) l) / inject_Z (len l - 1))
  end.

(** [Series.min()] and [Series.max()]: NaN on an empty column. *)
Definition Qmin_list (l : list Q) : float :=
  match l with
  | [] => NaN
  | x :: r => Fin (fold_left (fun a b => if Qle_bool a b then a else b) r x)
  end.

Definition Qmax_list (l : list Q) : float :=
  match l with
  | [] => NaN
  | x :: r => Fin (fold_left (fun a b => if Qle_bool b a then a else b) r x)
  end.

Definition Zmax_list (d : Z) (l : list Z) : Z := fold_left Z.max l d.
Definition Zmin_list (d : Z) (l : list Z) : Z := fold_left Z.min l d.

(** ** Exceptions *)

Inductive exn : Type :=
| HTTPException (status_code : Z) (detail : string)
| ValueError (msg : string).

Inductive result (A : Type) : Type :=
| Ok (a : A)
| Raise (e : exn).
Arguments Ok {A} a.
Arguments Raise {A} e.

Definition bind {A B : Type} (m : result A) (f : A -> result B) : result B :=
  match m with
  | Ok a => f a
  | Raise e => Raise e
  end.

Notation "x <- m ;; k" := (bind m (fun x => k))
  (at level 61, m at next level, right associativity).

(** [except Exception as e: raise HTTPException(status_code=500,
    detail=str(e))].  Starlette renders an HTTPException as
    "<status_code>: <detail>". *)
Definition status_text (code : Z) : string :=
  NilZero.string_of_int (Z.to_int code).

Definition str (e : exn) : string :=
  match e with
  | HTTPException code detail => status_text code ++ ": " ++ detail
  | ValueError msg => msg
  end.

Definition try_except {A : Type} (body : result A) : result A :=
  match body with
  | Ok a => Ok a
  | Raise e => Raise (HTTPException 500 (str e))
  end.

(** ** Group-by

    [DataFrame.groupby(key)]: one group per distinct key, groups in
    ascending key order, each group holding its rows in row order. *)

Section GroupBy.

Context {K : Type}.
Variable leb : K -> K -> bool.
Variable eqb : K -> K -> bool.

Fixpoint unique (l : list K) : list K :=
  match l with
  | [] => []
  | x :: r => if existsb (eqb x) r then unique r else x :: unique r
  end.

Fixpoint insert_sorted (k : K) (l : list K) : list K :=
  match l with
  | [] => [k]
  | x :: r => if leb k x then k :: l else x :: insert_sorted k r
  end.

Definition sort (l : list K) : list K := fold_right insert_sorted [] l.

Definition group_keys (l : list K) : list K := sort (unique l).

Definition groupby {A : Type} (key : A -> K) (rows : list A)
  : list (K * list A) :=
  map (fun k => (k, filter (fun r => eqb (key r) k) rows))
      (group_keys (map key rows)).

End GroupBy.

(** ** Data model *)

Definition timestamp : Type := Z.
Bind Scope Z_scope with timestamp.

Inductive Status : Type := completed | pending | failed.

Record Customer : Type := {
  c_customer_id : string;
  registration_date : timestamp;
  age : option Z;
  segment_label : string
}.

Record Transaction : Type := {
  transaction_id : string;
  customer_id : string;
  transaction_date : timestamp;
  amount : Q;
  status : Status
}.

(** The [data] dictionary of the service, once loaded. *)
Record Data : Type := {
  customers : list Customer;
  transactions : list Transaction
}.

(** ** Calendar *)

Definition seconds_per_day : Z := 86400.

(** [.dt.date] as a day number, and [Timedelta.days]: floor division. *)
Definition date_of (t : timestamp) : Z := (t / seconds_per_day)%Z.
Definition days_between (now t : timestamp) : Z := ((now - t) / seconds_per_day)%Z.

(** [to_period('W')]: weeks run Monday to Sunday; day 0 is a Thursday. *)
Definition week_of (t : timestamp) : Z := ((date_of t + 3) / 7)%Z.

(** Year and month (1..12) of a day number, proleptic Gregorian calendar. *)
Definition civil_year_month (day : Z) : Z * Z :=
  let z := (day + 719468)%Z in
  let era := (z / 146097)%Z in
  let doe := (z - era * 146097)%Z in
  let yoe := ((doe - doe / 1460 + doe / 36524 - doe / 146096) / 365)%Z in
  let doy := (doe - (365 * yoe + yoe / 4 - yoe / 100))%Z in
  let mp := ((5 * doy + 2) / 153)%Z in
  let m := (if mp <? 10 then mp + 3 else mp - 9)%Z in
  let y := (yoe + era * 400 + (if m <=? 2 then 1 else 0))%Z in
  (y, m).

(** [to_period('M')] as the number of months since year 0. *)
Definition month_of (t : timestamp) : Z :=
  let '(y, m) := civil_year_month (date_of t) in (y * 12 + (m - 1))%Z.

(** ** Churn analyzer: [get_churn_metrics] *)

Record ChurnData : Type := {
  churn_rate : Q;
  churned_customers : Z;
  at_risk_customers : Z;
  total_customers : Z;
  active_customers : Z;
  churn_threshold_days : Z
}.

(** [Series.max()] of a group's dates (a group is never empty). *)
Definition max_date (rows : list Transaction) : timestamp :=
  match map transaction_date rows with
  | [] => 0%Z
  | d :: r => Zmax_list d r
  end.

Definition min_date (rows : list Transaction) : timestamp :=
  match map transaction_date rows with
  | [] => 0%Z
  | d :: r => Zmin_list d r
  end.

(** [transactions_df.groupby('customer_id')['transaction_date'].max()] *)
Definition last_transaction (txs : list Transaction) : list (string * timestamp) :=
  map (fun g => (fst g, max_date (snd g)))
      (groupby String.leb String.eqb customer_id txs).

Definition churn_threshold : Z := 90.
Definition at_risk_threshold : Z := 60.

Definition is_churned (days : Z) : bool := (churn_threshold <? days)%Z.
Definition is_at_risk (days : Z) : bool :=
  ((at_risk_threshold <? days) && (days <=? churn_threshold))%Z.

Definition churn_metrics (d : Data) (current_date : timestamp) : ChurnData :=
  let days_since_last :=
    map (fun g => days_between current_date (snd g))
        (last_transaction (transactions d)) in
  let churned := len (filter is_churned days_since_last) in
  let at_risk := len (filter is_at_risk days_since_last) in
  let total := len (customers d) in
  let rate :=
    if (0 <? total)%Z
    then (inject_Z churned / inject_Z total) * 100
    else 0 in
  {| churn_rate := round2 rate;
     churned_customers := churned;
     at_risk_customers := at_risk;
     total_customers := total;
     active_customers := (total - churned)%Z;
     churn_threshold_days := churn_threshold |}.

Definition data_not_available : exn := HTTPException 503 "Data not available".

Definition get_churn_metrics (data : option Data) (current_date : timestamp)
  : result ChurnData :=
  match data with
  | None => Raise data_not_available
  | Some d => try_except (Ok (churn_metrics d current_date))
  end.

(** ** Anomaly detector: [get_anomaly_metrics] *)

(** A threshold [mu + k * std].  The standard deviation is irrational in
    general, so a threshold keeps the mean, the factor and the variance;
    [level_R] is its value.  Comparisons against it are decided on the
    squares. *)
Inductive level : Type :=
| LNaN
| LConst (c : Q)
| LSigma (mu k var : Q).

(** [mean + k * std] *)
Definition sigma_level (m : float) (k : Q) (var : option Q) : level :=
  match m, var with
  | Fin mu, Some v => LSigma mu k v
  | _, _ => LNaN
  end.

(** [d > c * sqrt v] and [d >= c * sqrt v], for [0 <= c] and [0 <= v]. *)
Definition above_sigma (d c v : Q) : bool :=
  negb (Qle_bool d 0) && negb (Qle_bool (d * d) (c * c * v)).
Definition atleast_sigma (d c v : Q) : bool :=
  Qle_bool 0 d && Qle_bool (c * c * v) (d * d).

(** [x > l] and [x < l]; false against NaN. *)
Definition gt_level (x : Q) (l : level) : bool :=
  match l with
  | LNaN => false
  | LConst c => negb (Qle_bool x c)
  | LSigma mu k v =>
      if Qle_bool 0 k then above_sigma (x - mu) k v
      else negb (atleast_sigma (mu - x) (- k) v)
  end.

Definition lt_level (x : Q) (l : level) : bool :=
  match l with
  | LNaN => false
  | LConst c => negb (Qle_bool c x)
  | LSigma mu k v =>
      if Qle_bool 0 k then negb (atleast_sigma (x - mu) k v)
      else above_sigma (mu - x) (- k) v
  end.

(** Python's [max(0, l)]: [l] when [l > 0], else 0 (so 0 for NaN). *)
Definition max0 (l : level) : level :=
  if lt_level 0 l then l else LConst 0.

Record AnomalyRecord : Type := {
  r_transaction_id : string;
  r_customer_id : string;
  r_amount : Q;
  r_transaction_date : timestamp
}.

Definition to_record (t : Transaction) : AnomalyRecord :=
  {| r_transaction_id := transaction_id t;
     r_customer_id := customer_id t;
     r_amount := amount t;
     r_transaction_date := transaction_date t |}.

(** The reported thresholds are kept unrounded: [round(threshold, 2)] of
    an irrational threshold has no exact rational form.  The formatted
    [normal_daily_range] string is not part of the record. *)
Record LargeTransactions : Type := {
  lt_count : Z;
  lt_threshold : level;
  lt_total_value : Q;
  lt_avg_amount : float
}.

Record DailyVolumeAnomalies : Type := {
  dv_anomalous_days : Z;
  dv_upper_threshold : level;
  dv_lower_threshold : level
}.

Record AnomalyData : Type := {
  large_transactions : LargeTransactions;
  daily_volume_anomalies : DailyVolumeAnomalies;
  recent_anomalies : list AnomalyRecord
}.

(** [DataFrame.tail(n)]: the last [n] rows, in row order. *)
Definition tail {A : Type} (n : nat) (l : list A) : list A :=
  skipn (List.length l - n) l.

(** [threshold = mean_amount + (3 * std_amount)] *)
Definition amount_threshold (txs : list Transaction) : level :=
  let amounts := map amount txs in
  sigma_level (mean amounts) 3 (sample_var amounts).

(** [transactions_df[transactions_df['amount'] > threshold]] *)
Definition anomalous_transactions (txs : list Transaction) : list Transaction :=
  filter (fun t => gt_level (amount t) (amount_threshold txs)) txs.

(** [transactions_df.groupby(transaction_date.dt.date).size()] *)
Definition daily_counts (txs : list Transaction) : list Z :=
  map (fun g => len (snd g))
      (groupby Z.leb Z.eqb (fun t => date_of (transaction_date t)) txs).

Definition anomaly_metrics (d : Data) : AnomalyData :=
  let txs := transactions d in
  let threshold := amount_threshold txs in
  let anomalous := anomalous_transactions txs in
  let counts := map inject_Z (daily_counts txs) in
  let daily_mean := mean counts in
  let daily_var := sample_var counts in
  let upper := sigma_level daily_mean 2 daily_var in
  let lower := max0 (sigma_level daily_mean (- (2)) daily_var) in
  let anomalous_days :=
    filter (fun c => gt_level c upper || lt_level c lower) counts in
  {| large_transactions :=
       {| lt_count := len anomalous;
          lt_threshold := threshold;
          lt_total_value := round2 (Qsum (map amount anomalous));
          lt_avg_amount :=
            if (0 <? len anomalous)%Z
            then fround2 (mean (map amount anomalous))
            else Fin 0 |};
     daily_volume_anomalies :=
       {| dv_anomalous_days := len anomalous_days;
          dv_upper_threshold := upper;
          dv_lower_threshold := lower |};
     recent_anomalies :=
       if (0 <? len anomalous)%Z
       then map to_record (tail 10 anomalous)
       else [] |}.

Definition get_anomaly_metrics (data : option Data) : result AnomalyData :=
  match data with
  | None => Raise data_not_available
  | Some d => try_except (Ok (anomaly_metrics d))
  end.

(** ** Segmentation engine: [get_high_value_customers] *)

Record Profile : Type := {
  p_customer_id : string;
  transaction_count : Z;
  total_spent : Q;
  p_avg_order_value : Q;
  first_purchase : timestamp;
  last_purchase : timestamp
}.

(** [groupby('customer_id').agg({'amount': ['count', 'sum', 'mean'],
    'transaction_date': ['min', 'max']}).round(2)]; a group is never
    empty, so its mean is finite. *)
Definition customer_spending (txs : list Transaction) : list Profile :=
  map (fun g =>
         let amounts := map amount (snd g) in
         {| p_customer_id := fst g;
            transaction_count := len amounts;
            total_spent := round2 (Qsum amounts);
            p_avg_order_value := round2 (Qsum amounts / inject_Z (len amounts));
            first_purchase := min_date (snd g);
            last_purchase := max_date (snd g) |})
      (groupby String.leb String.eqb customer_id txs).

(** [Series.quantile(q)], linear interpolation between the two order
    statistics around position [(n - 1) * q]; NaN on an empty column. *)
Definition quantile (xs : list Q) (q : Q) : float :=
  match xs with
  | [] => NaN
  | _ =>
      let s := sort Qle_bool xs in
      let h := inject_Z (len xs - 1) * q in
      let lo := Z.to_nat (Qfloor h) in
      let frac := h - inject_Z (Qfloor h) in
      let a := nth lo s 0 in
      let b := nth (S lo) s a in
      Fin (a + frac * (b - a))
  end.

Record SegmentEntry : Type := {
  segment : string;
  customer_count : Z;
  avg_revenue : float;
  seg_total_revenue : Q;
  percentage : Q;
  min_spend : float;
  max_spend : float
}.

Definition spending_percentiles : list Q := [95 # 100; 80 # 100; 60 # 100; 40 # 100].
Definition segment_names : list string := ["Platinum"; "Gold"; "Silver"; "Bronze"]%string.

(** The rows selected for the tier at position [i] of the loop. *)
Definition segment_customers (cs : list Profile) (i : nat) (percentile : Q)
  : list Profile :=
  let spent := map total_spent cs in
  match i with
  | O =>
      filter (fun p => Float.geb (Fin (total_spent p)) (quantile spent percentile)) cs
  | S j =>
      let prev_percentile := nth j spending_percentiles 0 in
      filter (fun p =>
                Float.geb (Fin (total_spent p)) (quantile spent percentile)
                && Float.ltb (Fin (total_spent p)) (quantile spent prev_percentile))
             cs
  end.

Definition segment_entry (cs : list Profile) (name : string) (sc : list Profile)
  : SegmentEntry :=
  let spent := map total_spent sc in
  {| segment := name;
     customer_count := len sc;
     avg_revenue := fround2 (mean spent);
     seg_total_revenue := round2 (Qsum spent);
     percentage := round2 ((inject_Z (len sc) / inject_Z (len cs)) * 100);
     min_spend := fround2 (Qmin_list spent);
     max_spend := fround2 (Qmax_list spent) |}.

(** [for i, (percentile, name) in enumerate(zip(...))], from position [i]. *)
Fixpoint segments_loop (cs : list Profile) (i : nat) (items : list (Q * string))
  : list SegmentEntry :=
  match items with
  | [] => []
  | (percentile, name) :: rest =>
      let sc := segment_customers cs i percentile in
      (if (0 <? len sc)%Z then [segment_entry cs name sc] else [])
        ++ segments_loop cs (S i) rest
  end.

Definition customer_segments (cs : list Profile) : list SegmentEntry :=
  segments_loop cs 0 (combine spending_percentiles segment_names).

Record SegmentData : Type := {
  high_value_threshold : float;
  total_high_value_customers : Z;
  sd_customer_segments : list SegmentEntry;
  top_10_customers : list Profile
}.

(** [sort_values('total_spent', ascending=False)]; rows of equal spend are
    kept in profile order. *)
Definition sort_by_spend_desc (cs : list Profile) : list Profile :=
  sort (fun a b => Qle_bool (total_spent b) (total_spent a)) cs.

Definition segment_metrics (d : Data) : SegmentData :=
  let cs := customer_spending (transactions d) in
  let threshold := quantile (map total_spent cs) (8 # 10) in
  let high_value_customers :=
    sort_by_spend_desc
      (filter (fun p => Float.geb (Fin (total_spent p)) threshold) cs) in
  {| high_value_threshold := fround2 threshold;
     total_high_value_customers := len high_value_customers;
     sd_customer_segments := customer_segments cs;
     top_10_customers := firstn 10 high_value_customers |}.

Definition get_high_value_customers (data : option Data) : result SegmentData :=
  match data with
  | None => Raise data_not_available
  | Some d => try_except (Ok (segment_metrics d))
  end.

(** ** Trend aggregator: [get_revenue_analytics] *)

Record RevenueRow : Type := {
  bucket : Z;
  n_transactions : Z;
  revenue : Q;
  avg_order_value : Q;
  unique_customers : Z
}.

(** [groupby(<bucket of transaction_date>).agg({'amount': ['count', 'sum',
    'mean'], 'customer_id': 'nunique'}).round(2)], then [reset_index()].
    The bucket stays a number (day number, week number, month number)
    rather than its printed label. *)
Definition revenue_by (bucket_of : timestamp -> Z) (txs : list Transaction)
  : list RevenueRow :=
  map (fun g =>
         let amounts := map amount (snd g) in
         {| bucket := fst g;
            n_transactions := len amounts;
            revenue := round2 (Qsum amounts);
            avg_order_value := round2 (Qsum amounts / inject_Z (len amounts));
            unique_customers := len (unique String.eqb (map customer_id (snd g))) |})
      (groupby Z.leb Z.eqb (fun t => bucket_of (transaction_date t)) txs).

Definition invalid_period : exn :=
  HTTPException 400 "Invalid period. Use: daily, weekly, or monthly".

Definition bucket_rows (period : string) (txs : list Transaction)
  : result (list RevenueRow) :=
  if (period =? "daily")%string then Ok (revenue_by date_of txs)
  else if (period =? "weekly")%string then Ok (revenue_by week_of txs)
  else if (period =? "monthly")%string then Ok (revenue_by month_of txs)
  else Raise invalid_period.

(** [Series.idxmax()]: position of the first maximum; raises on an empty
    column. *)
Fixpoint idxmax_from (best : Q) (best_i i : nat) (l : list Q) : nat :=
  match l with
  | [] => best_i
  | x :: r =>
      if Qle_bool x best then idxmax_from best best_i (S i) r
      else idxmax_from x i (S i) r
  end.

Definition idxmax (l : list Q) : result nat :=
  match l with
  | [] => Raise (ValueError "attempt to get argmax of an empty sequence")
  | x :: r => Ok (idxmax_from x 0 1 r)
  end.

(** [revenue_data.loc[i]] on the default index. *)
Definition loc (rows : list RevenueRow) (i : nat) : result RevenueRow :=
  match nth_error rows i with
  | Some r => Ok r
  | None => Raise (ValueError "key not found")
  end.

(** [round(((revenue.iloc[-1] / revenue.iloc[0]) - 1) * 100, 2)
    if len(revenue_data) > 1 else 0] *)
Definition revenue_growth_of (revenues : list Q) : float :=
  if (1 <? len revenues)%Z
  then fround2
         (Float.mul
            (Float.sub (Float.div (Fin (last revenues 0)) (Fin (hd 0 revenues)))
                       (Fin 1))
            (Fin 100))
  else Fin 0.

Record Summary : Type := {
  avg_daily_revenue : float;
  peak_revenue_day : RevenueRow;
  revenue_growth : float
}.

Record AnalyticsData : Type := {
  period_used : string;
  total_revenue : Q;
  total_transactions : Z;
  data_points : Z;
  revenue_trends : list RevenueRow;
  summary : Summary
}.

Definition revenue_analytics (d : Data) (period : string) : result AnalyticsData :=
  let txs := transactions d in
  revenue_data <- bucket_rows period txs ;;
  let revenues := map revenue revenue_data in
  peak <- (i <- idxmax revenues ;; loc revenue_data i) ;;
  Ok {| period_used := period;
        total_revenue := round2 (Qsum (map amount txs));
        total_transactions := len txs;
        data_points := len revenue_data;
        revenue_trends := revenue_data;
        summary :=
          {| avg_daily_revenue := fround2 (mean revenues);
             peak_revenue_day := peak;
             revenue_growth := revenue_growth_of revenues |} |}.

Definition get_revenue_analytics (data : option Data) (period : string)
  : result AnalyticsData :=
  match data with
  | None => Raise data_not_available
  | Some d => try_except (revenue_analytics d period)
  end.

(** ** The amount threshold in binary64

    Lines 196 to 201 of [get_anomaly_metrics] as they run on IEEE 754
    doubles. *)

Definition binary64 : Type := PrimFloat.float.

(** [float(z)]; exact for [|z| < 2^53]. *)
Definition of_int (z : Z) : binary64 :=
  if (z <? 0)%Z then PrimFloat.opp (PrimFloat.of_uint63 (Uint63.of_Z (- z)))
  else PrimFloat.of_uint63 (Uint63.of_Z z).

(** The double that [read_csv] stores for a decimal field: the double
    nearest to the fraction (a correctly rounded quotient, for a numerator
    and a denominator below 2^53). *)
Definition read_float (q : Q) : binary64 :=
  PrimFloat.div (of_int (Qnum q)) (of_int (Zpos (Qden q))).

Definition amount64 (t : Transaction) : binary64 := read_float (amount t).

(** The order in which a column is added up depends on the installation:
    from left to right when pandas delegates to bottleneck, numpy's
    pairwise summation otherwise. *)
Definition sequential_sum (a : list binary64) : binary64 :=
  fold_left PrimFloat.add a (of_int 0).

(** numpy's pairwise summation.  Up to 128 values make one block: fewer
    than 8 are added from left to right; otherwise eight running sums, one
    for each position modulo 8, take the whole groups of eight, ... *)
Record Lanes : Type := {
  lane0 : binary64; lane1 : binary64; lane2 : binary64; lane3 : binary64;
  lane4 : binary64; lane5 : binary64; lane6 : binary64; lane7 : binary64
}.

Fixpoint add_lanes (r : Lanes) (a : list binary64) {struct a}
  : Lanes * list binary64 :=
  match a with
  | a0 :: a1 :: a2 :: a3 :: a4 :: a5 :: a6 :: a7 :: rest =>
      add_lanes {| lane0 := PrimFloat.add (lane0 r) a0; lane1 := PrimFloat.add (lane1 r) a1;
                   lane2 := PrimFloat.add (lane2 r) a2; lane3 := PrimFloat.add (lane3 r) a3;
                   lane4 := PrimFloat.add (lane4 r) a4; lane5 := PrimFloat.add (lane5 r) a5;
                   lane6 := PrimFloat.add (lane6 r) a6; lane7 := PrimFloat.add (lane7 r) a7 |}
                rest
  | _ => (r, a)
  end.

(** ... the eight sums are added two by two, and the values left over
    are added to the result one by one. *)
Definition block_sum (a : list binary64) : binary64 :=
  match a with
  | a0 :: a1 :: a2 :: a3 :: a4 :: a5 :: a6 :: a7 :: rest =>
      let (r, left_over) :=
        add_lanes {| lane0 := a0; lane1 := a1; lane2 := a2; lane3 := a3;
                     lane4 := a4; lane5 := a5; lane6 := a6; lane7 := a7 |} rest in
      fold_left PrimFloat.add left_over
        (PrimFloat.add
           (PrimFloat.add (PrimFloat.add (lane0 r) (lane1 r)) (PrimFloat.add (lane2 r) (lane3 r)))
           (PrimFloat.add (PrimFloat.add (lane4 r) (lane5 r)) (PrimFloat.add (lane6 r) (lane7 r))))
  | _ => sequential_sum a
  end.

(** Above 128 values the column is cut in two, the first part a multiple
    of 8 long, and the sums of the parts are added.  [depth] bounds the
    number of cuts; the length of the column is more than enough. *)
Fixpoint pairwise_sum_rec (depth : nat) (a : list binary64) : binary64 :=
  match depth with
  | O => block_sum a
  | S depth' =>
      let n := List.length a in
      if (n <=? 128)%nat then block_sum a
      else
        let n2 := (n / 2 - (n / 2) mod 8)%nat in
        PrimFloat.add (pairwise_sum_rec depth' (firstn n2 a))
                      (pairwise_sum_rec depth' (skipn n2 a))
  end.

Definition pairwise_sum (a : list binary64) : binary64 :=
  pairwise_sum_rec (List.length a) a.

Section AmountThreshold.

(** [ndarray.sum()] *)
Variable sum : list binary64 -> binary64.

(** [Series.mean()]: the sum over the count, NaN on an empty column. *)
Definition mean64 (values : list binary64) : binary64 :=
  match values with
  | [] => PrimFloat.nan
  | _ => PrimFloat.div (sum values) (of_int (len values))
  end.

(** The variance under [Series.std()] (ddof = 1), in two passes: NaN with
    fewer than two values, else [avg = values.sum() / count] and
    [((avg - values) ** 2).sum() / (count - 1)]. *)
Definition var64 (values : list binary64) : binary64 :=
  match values with
  | [] | [_] => PrimFloat.nan
  | _ =>
      let avg := PrimFloat.div (sum values) (of_int (len values)) in
      let sqr := map (fun x => PrimFloat.mul (PrimFloat.sub avg x)
                                             (PrimFloat.sub avg x)) values in
      PrimFloat.div (sum sqr) (of_int (len values - 1))
  end.

Definition std64 (values : list binary64) : binary64 :=
  PrimFloat.sqrt (var64 values).

(** [mean_amount = transactions_df['amount'].mean()] *)
Definition mean_amount64 (txs : list Transaction) : binary64 :=
  mean64 (map amount64 txs).

(** [std_amount = transactions_df['amount'].std()] *)
Definition std_amount64 (txs : list Transaction) : binary64 :=
  std64 (map amount64 txs).

(** [threshold = mean_amount + (3 * std_amount)] *)
Definition amount_threshold64 (txs : list Transaction) : binary64 :=
  PrimFloat.add (mean_amount64 txs) (PrimFloat.mul (of_int 3) (std_amount64 txs)).

(** [transactions_df[transactions_df['amount'] > threshold]] *)
Definition anomalous_transactions64 (txs : list Transaction) : list Transaction :=
  filter (fun t => PrimFloat.ltb (amount_threshold64 txs) (amount64 t)) txs.

End AmountThreshold.

(** * Vocabulary of the properties *)

(** An amount that is a whole number of cents. *)
Definition whole_cents (q : Q) : Prop := inject_Z (Qfloor (q * 100)) == q * 100.

(** ** Vocabulary of the churn analyzer *)

(** The customers the churn analyzer classifies, and the age in whole days
    of the latest transaction of one of them. *)
Definition churn_ids (txs : list Transaction) : list string :=
  map fst (last_transaction txs).

Definition days_since_last (txs : list Transaction) (now : timestamp) (c : string) : Z :=
  days_between now (max_date (filter (fun t => (customer_id t =? c)%string) txs)).

(** Every transaction belongs to a customer of the Customer collection. *)
Definition no_orphans (d : Data) : Prop :=
  forall t, In t (transactions d) ->
            In (customer_id t) (map c_customer_id (customers d)).

(** ** Sample rows for the scenarios *)

Definition mk_customer (c : string) : Customer :=
  {| c_customer_id := c; registration_date := 0; age := None; segment_label := "" |}.

Definition mk_tx (i c : string) (date : timestamp) (a : Q) : Transaction :=
  {| transaction_id := i; customer_id := c; transaction_date := date;
     amount := a; status := completed |}.

Definition days (n : Z) : Z := (n * seconds_per_day)%Z.

(** One customer whose only transaction is 70 days old. *)
Definition at_risk_data (now : timestamp) : Data :=
  {| customers := [mk_customer "C1"];
     transactions := [mk_tx "T1" "C1" (now - days 70) 100] |}.

(** One customer, and two old transactions of customers that are not in
    the Customer collection. *)
Definition orphan_data (now : timestamp) : Data :=
  {| customers := [mk_customer "C1"];
     transactions := [mk_tx "T1" "C2" (now - days 170) 100;
                      mk_tx "T2" "C3" (now - days 170) 100] |}.

(** Two customers, one of them without any transaction. *)
Definition idle_customer_data (now : timestamp) : Data :=
  {| customers := [mk_customer "C1"; mk_customer "C2"];
     transactions := [mk_tx "T1" "C1" (now - days 10) 100] |}.

(** The scenario of the specification: one customer, one transaction ten
    days old. *)
Definition recent_data (now : timestamp) : Data :=
  {| customers := [mk_customer "C1"];
     transactions := [mk_tx "T1" "C1" (now - days 10) 100] |}.

(** ** Vocabulary of the trend aggregator *)

Definition valid_period (p : string) : Prop :=
  p = "daily"%string \/ p = "weekly"%string \/ p = "monthly"%string.

(** Two transactions of 0.004 on two consecutive days. *)
Definition sub_cent_data : Data :=
  {| customers := [];
     transactions := [mk_tx "T1" "C1" 0 (4 # 1000); mk_tx "T2" "C1" (days 1) (4 # 1000)] |}.

(** Revenues 3 and 4 on two consecutive days. *)
Definition thirds_data : Data :=
  {| customers := [];
     transactions := [mk_tx "T1" "C1" 0 3; mk_tx "T2" "C1" (days 1) 4] |}.

(** No revenue on the first day, 150 on the second. *)
Definition zero_first_data : Data :=
  {| customers := [];
     transactions := [mk_tx "T1" "C1" 0 0; mk_tx "T2" "C1" (days 1) 150] |}.

(** Revenues 100 and 150 in January and February 2024. *)
Definition two_months_data : Data :=
  {| customers := [];
     transactions := [mk_tx "T1" "C1" (days 19730) 60; mk_tx "T2" "C2" (days 19740) 40;
                      mk_tx "T3" "C1" (days 19760) 150] |}.

Definition empty_data (cs : list Customer) : Data :=
  {| customers := cs; transactions := [] |}.

(** Runs a call on a concrete input and provides its result. *)
Ltac run_call :=
  match goal with
  | |- exists r, ?call = Ok r /\ _ =>
      let v := eval vm_compute in call in
      match v with
      | Ok ?x => exists x; split; [vm_compute; reflexivity|]
      end
  end.

(** [((last / first) - 1) * 100] on doubles, before [round(_, 2)]. *)
Definition growth64 (first last : binary64) : binary64 :=
  PrimFloat.mul (PrimFloat.sub (PrimFloat.div last first) (of_int 1)) (of_int 100).

(** ** Vocabulary of the anomaly detector *)

(** The value of a threshold; [None] is NaN. *)
Definition level_R (l : level) : option R :=
  match l with
  | LNaN => None
  | LConst c => Some (Q2R c)
  | LSigma mu k v => Some (Q2R mu + Q2R k * sqrt (Q2R v))%R
  end.

(** 99 transactions of amount 10 and one of amount 10000. *)
Definition big_tx : Transaction := mk_tx "BIG" "C2" (days 3) 10000.

Definition one_large_data : Data :=
  {| customers := [];
     transactions := repeat (mk_tx "T" "C1" 0 10) 99 ++ [big_tx] |}.

(** Eleven large transactions among 120 small ones: the most recent large
    one (day 400) is the first row, the ten others (days 1 to 10) are the
    last rows. *)
Definition large_tx (i : string) (day : Z) : Transaction :=
  mk_tx i "C2" (days day) 10000.

Definition late_rows : list Transaction :=
  [large_tx "A01" 1; large_tx "A02" 2; large_tx "A03" 3; large_tx "A04" 4;
   large_tx "A05" 5; large_tx "A06" 6; large_tx "A07" 7; large_tx "A08" 8;
   large_tx "A09" 9; large_tx "A10" 10].

Definition unsorted_data : Data :=
  {| customers := [];
     transactions :=
       large_tx "A00" 400 :: repeat (mk_tx "T" "C1" 0 10) 120 ++ late_rows |}.

(** Nine transactions of 0.03, one of 0.05 and one of 0.23: the mean is
    0.05, the sample standard deviation 0.06, and the largest amount sits
    on the threshold 0.05 + 3 * 0.06. *)
Definition on_threshold_tx : Transaction := mk_tx "EDGE" "C2" (days 3) (23 # 100).

Definition on_threshold_data : Data :=
  {| customers := [];
     transactions := repeat (mk_tx "T" "C1" 0 (3 # 100)) 9
                     ++ [mk_tx "U" "C1" (days 1) (5 # 100); on_threshold_tx] |}.

(** ** Vocabulary of the segmentation engine *)

(** The percentile and the name of the tier at position [i]. *)
Definition tier_percentile (i : nat) : Q := nth i spending_percentiles 0.
Definition tier_name (i : nat) : string := nth i segment_names ""%string.

(** The profiles of the tier at position [i]. *)
Definition tier (cs : list Profile) (i : nat) : list Profile :=
  segment_customers cs i (tier_percentile i).

(** A single customer. *)
Definition single_customer_txs : list Transaction := [mk_tx "T1" "C1" 0 10].

(** The interpolation that [quantile] performs at position [h] of the
    sorted column [s]. *)
Definition interpolate (s : list Q) (h : Q) : Q :=
  let lo := Z.to_nat (Qfloor h) in
  let a := nth lo s 0 in
  a + (h - inject_Z (Qfloor h)) * (nth (S lo) s a - a).

(** ** Further vocabulary *)

Definition Zsum (l : list Z) : Z := fold_right Z.add 0%Z l.

(** Two transactions on each of two days, given out of date order. *)
Definition two_days_data : Data :=
  {| customers := [];
     transactions := [mk_tx "T1" "C1" (days 5) 20; mk_tx "T2" "C2" (days 2) 30;
                      mk_tx "T3" "C1" (days 5 + 60) 5; mk_tx "T4" "C1" (days 2 + 7) 1] |}.

(** Five customers with distinct spends. *)
Definition five_customers_txs : list Transaction :=
  [mk_tx "T1" "C2" 0 10; mk_tx "T2" "C3" (days 1) 150; mk_tx "T3" "C3" (days 2) 0;
   mk_tx "T4" "C1" (days 3) 70; mk_tx "T5" "C4" (days 4) 80; mk_tx "T6" "C5" (days 5) 90].

(** The profiles at or above the high-value threshold, before sorting. *)
Definition high_value (cs : list Profile) : list Profile :=
  filter (fun p => Float.geb (Fin (total_spent p))
                             (quantile (map total_spent cs) (8 # 10))) cs.

(** ** Customer analytics: [get_customer_analytics] *)

Record LifetimeValue : Type := {
  clv_mean : float;
  clv_median : float;
  clv_percentile_75 : float;
  clv_percentile_95 : float
}.

Record PurchaseFrequency : Type := {
  pf_mean : float;
  pf_median : float;
  one_time_buyers : Z;
  repeat_customers : Z
}.

Record CustomerAnalytics : Type := {
  ca_total_customers : Z;
  customers_with_purchases : Z;
  customer_lifetime_value : LifetimeValue;
  purchase_frequency : PurchaseFrequency;
  customer_acquisition : list (Z * Z)
}.

(** [Series.median()]: the middle value, or the mean of the two middle
    values, which is the quantile at 0.5. *)
Definition median (xs : list Q) : float := quantile xs (1 # 2).

(** [customers_df.groupby(registration month).size().tail(12)]: the
    registrations per month, for the last twelve months that have any. *)
Definition acquisition (cs : list Customer) : list (Z * Z) :=
  tail 12 (map (fun g => (fst g, len (snd g)))
               (groupby Z.leb Z.eqb (fun c => month_of (registration_date c)) cs)).

(** The [customer_metrics] frame has the columns of the spend profiles;
    its [days_since_last_purchase] column and the [age_groups] series are
    computed but not reported. *)
Definition customer_analytics (d : Data) : CustomerAnalytics :=
  let customer_metrics := customer_spending (transactions d) in
  let spent := map total_spent customer_metrics in
  let counts := map transaction_count customer_metrics in
  {| ca_total_customers := len (customers d);
     customers_with_purchases := len customer_metrics;
     customer_lifetime_value :=
       {| clv_mean := fround2 (mean spent);
          clv_median := fround2 (median spent);
          clv_percentile_75 := fround2 (quantile spent (75 # 100));
          clv_percentile_95 := fround2 (quantile spent (95 # 100)) |};
     purchase_frequency :=
       {| pf_mean := fround2 (mean (map inject_Z counts));
          pf_median := fround2 (median (map inject_Z counts));
          one_time_buyers := len (filter (fun c => (c =? 1)%Z) counts);
          repeat_customers := len (filter (fun c => (1 <? c)%Z) counts) |};
     customer_acquisition := acquisition (customers d) |}.

Definition get_customer_analytics (data : option Data) : result CustomerAnalytics :=
  match data with
  | None => Raise data_not_available
  | Some d => try_except (Ok (customer_analytics d))
  end.

(** ** Loading the data: [load_data]

    The file system and pandas' readers are parameters: [exists_file] is
    [os.path.exists], [read_csv] is [pd.read_csv] and [to_datetime] converts
    one column of a frame; both readers can raise.  Any exception inside
    [load_data] is caught and turned into [None]. *)

Section LoadData.

Variable Frame : Type.
Variable exists_file : string -> bool.
Variable read_csv : string -> option Frame.
Variable to_datetime : string -> Frame -> option Frame.

Definition data_path : string := "../data/raw/".

Definition csv_files : list string :=
  ["customers.csv"; "transactions.csv"; "events.csv"; "products.csv"]%string.

(** [file.replace('.csv', '')] *)
Fixpoint remove_csv (s : string) : string :=
  match s with
  | String "."%char (String "c"%char (String "s"%char (String "v"%char rest))) =>
      remove_csv rest
  | String c rest => String c (remove_csv rest)
  | EmptyString => EmptyString
  end.

(** A dictionary of frames, as an association list with unique keys. *)
Definition datasets_t : Type := list (string * Frame).

Fixpoint dict_get (k : string) (m : datasets_t) : option Frame :=
  match m with
  | [] => None
  | (k', v) :: rest => if (k =? k')%string then Some v else dict_get k rest
  end.

Fixpoint dict_set (k : string) (v : Frame) (m : datasets_t) : datasets_t :=
  match m with
  | [] => [(k, v)]
  | (k', v') :: rest =>
      if (k =? k')%string then (k, v) :: rest else (k', v') :: dict_set k v rest
  end.

Definition has_key (k : string) (m : datasets_t) : Prop := dict_get k m <> None.

(** The loop over [csv_files]; [None] when [read_csv] raises. *)
Fixpoint read_files (files : list string) (datasets : datasets_t) : option datasets_t :=
  match files with
  | [] => Some datasets
  | file :: rest =>
      let file_path := (data_path ++ file)%string in
      if exists_file file_path
      then match read_csv file_path with
           | Some df => read_files rest (dict_set (remove_csv file) df datasets)
           | None => None
           end
      else read_files rest datasets
  end.

(** [datasets[name][column] = pd.to_datetime(datasets[name][column])]; a
    missing [name] raises KeyError. *)
Definition convert_column (name column : string) (datasets : datasets_t)
  : option datasets_t :=
  match dict_get name datasets with
  | None => None
  | Some df =>
      match to_datetime column df with
      | Some df' => Some (dict_set name df' datasets)
      | None => None
      end
  end.

Definition load_data : option datasets_t :=
  match read_files csv_files [] with
  | None => None
  | Some [] => None
  | Some datasets =>
      match convert_column "transactions" "transaction_date" datasets with
      | None => None
      | Some datasets1 => convert_column "customers" "registration_date" datasets1
      end
  end.

End LoadData.

(** A file system that holds the two required files only. *)
Definition exists_file_sample (path : string) : bool :=
  ((path =? "../data/raw/customers.csv") || (path =? "../data/raw/transactions.csv"))%string.

(** A deviation that is positive and whose square exceeds [w]. *)
Definition far (w d : Q) : Prop := 0 < d /\ w < d * d.

(** * Properties *)

(** ** Rounding *)

Lemma rint_comp (x y : Q) : x == y -> rint x = rint y.
Proof.
  intros E. unfold rint.
  rewrite (Qfloor_comp _ _ E).
  assert (C : (x - inject_Z (Qfloor y) ?= 1 # 2) = (y - inject_Z (Qfloor y) ?= 1 # 2)).
  { apply Qcompare_comp; [rewrite E|]; reflexivity. }
  now rewrite C.
Qed.

Lemma rint_inject_Z (k : Z) : rint (inject_Z k) = k.
Proof.
  unfold rint. rewrite Qfloor_Z.
  assert (C : (inject_Z k - inject_Z k ?= 1 # 2) = Lt).
  { rewrite <- Qlt_alt. Lqa.lra. }
  now rewrite C.
Qed.

Lemma round2_comp (x y : Q) : x == y -> round2 x = round2 y.
Proof.
  intros E. unfold round2. now rewrite (rint_comp (x * 100) (y * 100)) by now rewrite E.
Qed.

Lemma round2_whole_cents (q : Q) : whole_cents q -> round2 q == q.
Proof.
  unfold whole_cents, round2. intros W.
  rewrite Qred_correct.
  rewrite (rint_comp _ _ (Qeq_sym _ _ W)), rint_inject_Z, W.
  field.
Qed.

Lemma whole_cents_round2 (q : Q) : whole_cents (round2 q).
Proof.
  unfold whole_cents, round2.
  assert (E : Qred (inject_Z (rint (q * 100)) / 100) * 100 == inject_Z (rint (q * 100))).
  { rewrite Qred_correct. field. }
  rewrite (Qfloor_comp _ _ E), Qfloor_Z, E. reflexivity.
Qed.

Lemma round2_idem (q : Q) : round2 (round2 q) = round2 q.
Proof.
  pose proof (round2_whole_cents _ (whole_cents_round2 q)) as E.
  unfold round2 at 1 3.
  apply Qred_complete.
  fold (round2 q). unfold round2 in E at 1.
  rewrite Qred_correct in E. rewrite E.
  unfold round2. apply Qred_correct.
Qed.

Lemma whole_cents_comp (x y : Q) : x == y -> whole_cents x -> whole_cents y.
Proof.
  unfold whole_cents. intros E W.
  rewrite <- (Qfloor_comp (x * 100) (y * 100)) by now rewrite E.
  now rewrite W, E.
Qed.

Lemma whole_cents_0 : whole_cents 0.
Proof. reflexivity. Qed.

Lemma whole_cents_plus (x y : Q) : whole_cents x -> whole_cents y -> whole_cents (x + y).
Proof.
  unfold whole_cents. intros Wx Wy.
  assert (E : (x + y) * 100 == inject_Z (Qfloor (x * 100) + Qfloor (y * 100))).
  { rewrite inject_Z_plus, Wx, Wy. ring. }
  rewrite (Qfloor_comp _ _ E), Qfloor_Z, E. reflexivity.
Qed.

(** ** Sums *)

Lemma Qsum_cons (x : Q) (l : list Q) : Qsum (x :: l) == x + Qsum l.
Proof. change (Qred (x + Qsum l) == x + Qsum l). apply Qred_correct. Qed.

Lemma Qsum_nil : Qsum [] = 0.
Proof. reflexivity. Qed.

Arguments Qsum : simpl never.

Lemma whole_cents_Qsum (l : list Q) : Forall whole_cents l -> whole_cents (Qsum l).
Proof.
  induction 1 as [|x l Hx _ IH].
  - exact whole_cents_0.
  - apply (whole_cents_comp (x + Qsum l)); [symmetry; apply Qsum_cons|].
    now apply whole_cents_plus.
Qed.

Lemma Qsum_app (l1 l2 : list Q) : Qsum (l1 ++ l2) == Qsum l1 + Qsum l2.
Proof.
  induction l1 as [|x l1 IH]; simpl.
  - rewrite Qsum_nil. ring.
  - rewrite !Qsum_cons, IH. ring.
Qed.

Lemma len_nonneg {A : Type} (l : list A) : (0 <= len l)%Z.
Proof. unfold len. lia. Qed.

Lemma len_filter_le {A : Type} (f : A -> bool) (l : list A) :
  (len (filter f l) <= len l)%Z.
Proof.
  unfold len. apply inj_le. induction l as [|x l IH]; simpl; [lia|].
  destruct (f x); simpl; lia.
Qed.

Lemma len_map {A B : Type} (f : A -> B) (l : list A) : len (map f l) = len l.
Proof. unfold len. now rewrite length_map. Qed.

(** ** Group-by *)

Section GroupByFacts.

Context {K : Type}.
Variable leb : K -> K -> bool.
Variable eqb : K -> K -> bool.
Hypothesis eqb_eq : forall x y, eqb x y = true <-> x = y.

Lemma unique_In (l : list K) (x : K) : In x (unique eqb l) <-> In x l.
Proof.
  induction l as [|y l IH]; simpl; [tauto|].
  destruct (existsb (eqb y) l) eqn:E.
  - rewrite IH. split; [tauto|]. intros [->|H]; [|exact H].
    apply existsb_exists in E. destruct E as [z [Hz Ez]].
    apply eqb_eq in Ez. now subst.
  - simpl. now rewrite IH.
Qed.

Lemma unique_NoDup (l : list K) : NoDup (unique eqb l).
Proof.
  induction l as [|y l IH]; simpl; [constructor|].
  destruct (existsb (eqb y) l) eqn:E; [exact IH|].
  constructor; [|exact IH].
  rewrite unique_In. intros H.
  assert (X : existsb (eqb y) l = true).
  { apply existsb_exists. exists y. split; [exact H|]. now apply eqb_eq. }
  congruence.
Qed.

Lemma insert_sorted_perm (k : K) (l : list K) :
  Permutation (insert_sorted leb k l) (k :: l).
Proof.
  induction l as [|x l IH]; simpl; [reflexivity|].
  destruct (leb k x); [reflexivity|].
  rewrite IH. apply perm_swap.
Qed.

Lemma sort_perm (l : list K) : Permutation (sort leb l) l.
Proof.
  induction l as [|x l IH]; simpl; [reflexivity|].
  rewrite insert_sorted_perm. now constructor.
Qed.

Lemma group_keys_In (l : list K) (x : K) : In x (group_keys leb eqb l) <-> In x l.
Proof.
  unfold group_keys. split; intros H.
  - apply unique_In. eapply Permutation_in; [apply sort_perm|exact H].
  - eapply Permutation_in; [symmetry; apply sort_perm|]. now apply unique_In.
Qed.

Lemma group_keys_NoDup (l : list K) : NoDup (group_keys leb eqb l).
Proof.
  unfold group_keys.
  apply (Permutation_NoDup (l := unique eqb l)).
  - symmetry. apply sort_perm.
  - apply unique_NoDup.
Qed.

Lemma group_keys_nil (l : list K) : group_keys leb eqb l = [] <-> l = [].
Proof.
  split.
  - intros E. destruct l as [|x l]; [reflexivity|].
    assert (H : In x (group_keys leb eqb (x :: l))) by (apply group_keys_In; now left).
    rewrite E in H. destruct H.
  - intros ->. reflexivity.
Qed.

Context {A : Type}.
Variable key : A -> K.

Lemma groupby_keys (rows : list A) :
  map fst (groupby leb eqb key rows) = group_keys leb eqb (map key rows).
Proof.
  unfold groupby. rewrite map_map. simpl. apply map_id.
Qed.

Lemma groupby_In (rows : list A) (g : K * list A) :
  In g (groupby leb eqb key rows) ->
  In (fst g) (map key rows) /\ snd g = filter (fun r => eqb (key r) (fst g)) rows.
Proof.
  unfold groupby. rewrite in_map_iff. intros [k [<- Hk]]. simpl.
  split; [|reflexivity]. exact (proj1 (group_keys_In _ _) Hk).
Qed.

(** No group is empty. *)
Lemma groupby_nonempty (rows : list A) (g : K * list A) :
  In g (groupby leb eqb key rows) -> snd g <> [].
Proof.
  intros H. apply groupby_In in H. destruct H as [Hk ->].
  apply in_map_iff in Hk. destruct Hk as [r [Er Hr]].
  intros E.
  assert (X : In r (filter (fun r0 => eqb (key r0) (fst g)) rows)).
  { apply filter_In. split; [exact Hr|]. now apply eqb_eq. }
  rewrite E in X. destruct X.
Qed.

Lemma groupby_nil (rows : list A) : groupby leb eqb key rows = [] <-> rows = [].
Proof.
  split.
  - intros E. apply (f_equal (map fst)) in E. rewrite groupby_keys in E.
    simpl in E. apply (proj1 (group_keys_nil _)) in E. now apply map_eq_nil in E.
  - intros ->. reflexivity.
Qed.

(** Every row falls in exactly one group: a sum taken group by group is
    the sum over all rows. *)
Variable f : A -> Q.

Lemma Qsum_indicator (k0 : K) (c : Q) (ks : list K) :
  NoDup ks -> In k0 ks ->
  Qsum (map (fun k => if eqb k0 k then c else 0) ks) == c.
Proof.
  induction 1 as [|k ks Hk Hnd IH]; intros Hin; [destruct Hin|].
  simpl. rewrite Qsum_cons. destruct (eqb k0 k) eqn:E.
  - apply eqb_eq in E. subst k.
    assert (Z0 : Qsum (map (fun k => if eqb k0 k then c else 0) ks) == 0).
    { clear IH Hin Hnd. induction ks as [|k ks IH]; simpl; [reflexivity|].
      rewrite Qsum_cons.
      destruct (eqb k0 k) eqn:E.
      - apply eqb_eq in E. subst. exfalso. apply Hk. now left.
      - rewrite IH; [ring|]. intros H. apply Hk. now right. }
    rewrite Z0. ring.
  - destruct Hin as [->|Hin].
    + assert (X : eqb k0 k0 = true) by now apply eqb_eq. congruence.
    + rewrite (IH Hin). ring.
Qed.

Lemma Qsum_by_key (ks : list K) (rows : list A) :
  NoDup ks -> (forall r, In r rows -> In (key r) ks) ->
  Qsum (map (fun k => Qsum (map f (filter (fun r => eqb (key r) k) rows))) ks)
  == Qsum (map f rows).
Proof.
  intros Hnd. induction rows as [|r rows IH]; intros Hin.
  - simpl. clear Hin Hnd. induction ks as [|k ks IH]; simpl; [reflexivity|].
    rewrite Qsum_cons, IH, !Qsum_nil. ring.
  - assert (E : Qsum (map (fun k => Qsum (map f (filter (fun r0 => eqb (key r0) k) (r :: rows)))) ks)
                == Qsum (map (fun k => if eqb (key r) k then f r else 0) ks)
                   + Qsum (map (fun k => Qsum (map f (filter (fun r0 => eqb (key r0) k) rows))) ks)).
    { clear. induction ks as [|k ks IH]; simpl; [rewrite !Qsum_nil; ring|].
      rewrite !Qsum_cons, IH.
      destruct (eqb (key r) k); simpl; rewrite ?Qsum_cons; ring. }
    rewrite E, IH by (intros; apply Hin; now right).
    rewrite Qsum_indicator; [simpl; rewrite Qsum_cons; ring|exact Hnd|].
    apply Hin. now left.
Qed.

Lemma Qsum_groupby (rows : list A) :
  Qsum (map (fun g => Qsum (map f (snd g))) (groupby leb eqb key rows))
  == Qsum (map f rows).
Proof.
  unfold groupby. rewrite map_map. simpl.
  apply Qsum_by_key.
  - apply group_keys_NoDup.
  - intros r Hr. apply group_keys_In. now apply in_map.
Qed.

End GroupByFacts.

(** ** Rounding is monotone *)

Lemma rint_bounds (q : Q) : (Qfloor q <= rint q <= Qfloor q + 1)%Z.
Proof.
  unfold rint. destruct (q - inject_Z (Qfloor q) ?= 1 # 2); [destruct (Z.even _)| |]; lia.
Qed.

Lemma rint_le (x y : Q) : x <= y -> (rint x <= rint y)%Z.
Proof.
  intros L.
  pose proof (Qfloor_resp_le _ _ L) as F.
  destruct (Z.eq_dec (Qfloor x) (Qfloor y)) as [E|N].
  - unfold rint. rewrite E.
    destruct (x - inject_Z (Qfloor y) ?= 1 # 2) eqn:Cx;
      destruct (y - inject_Z (Qfloor y) ?= 1 # 2) eqn:Cy;
      try (destruct (Z.even (Qfloor y))); try lia; exfalso;
      try (apply Qeq_alt in Cx); try (apply Qeq_alt in Cy);
      try (rewrite <- Qlt_alt in Cx); try (rewrite <- Qlt_alt in Cy);
      try (rewrite <- Qgt_alt in Cx); try (rewrite <- Qgt_alt in Cy);
      Lqa.lra.
  - pose proof (rint_bounds x). pose proof (rint_bounds y). lia.
Qed.

Lemma round2_le (x y : Q) : x <= y -> round2 x <= round2 y.
Proof.
  intros L. unfold round2. rewrite !Qred_correct.
  assert (R : (rint (x * 100) <= rint (y * 100))%Z) by (apply rint_le; Lqa.lra).
  rewrite Zle_Qle in R.
  apply Qmult_le_compat_r; [exact R|]. discriminate.
Qed.

(** ** Rounding moves a value by at most half a unit *)

Lemma rint_close (q : Q) :
  - (1 # 2) <= inject_Z (rint q) - q <= 1 # 2.
Proof.
  pose proof (Qfloor_le q) as F. pose proof (Qlt_floor q) as G.
  rewrite inject_Z_plus in G. change (inject_Z 1) with 1 in G.
  unfold rint.
  destruct (q - inject_Z (Qfloor q) ?= 1 # 2) eqn:C.
  - apply Qeq_alt in C.
    destruct (Z.even (Qfloor q)); [|rewrite inject_Z_plus; change (inject_Z 1) with 1];
      split; Lqa.lra.
  - rewrite <- Qlt_alt in C. split; Lqa.lra.
  - rewrite <- Qgt_alt in C. rewrite inject_Z_plus. change (inject_Z 1) with 1.
    split; Lqa.lra.
Qed.

Lemma round2_close (q : Q) :
  - (1 # 200) <= round2 q - q <= 1 # 200.
Proof.
  unfold round2. rewrite Qred_correct.
  pose proof (rint_close (q * 100)) as [A B].
  assert (E : inject_Z (rint (q * 100)) / 100 - q
              == (inject_Z (rint (q * 100)) - q * 100) * (1 # 100)) by (field; discriminate).
  rewrite E. split; Lqa.lra.
Qed.

(** ** Churn analyzer *)

Lemma get_churn_metrics_ok (d : Data) (now : timestamp) :
  get_churn_metrics (Some d) now = Ok (churn_metrics d now).
Proof. reflexivity. Qed.

Lemma churn_ids_keys (txs : list Transaction) :
  churn_ids txs = group_keys String.leb String.eqb (map customer_id txs).
Proof.
  unfold churn_ids, last_transaction. rewrite map_map. simpl.
  apply (groupby_keys String.leb String.eqb customer_id).
Qed.

Lemma churn_ids_NoDup (txs : list Transaction) : NoDup (churn_ids txs).
Proof. rewrite churn_ids_keys. apply group_keys_NoDup, String.eqb_eq. Qed.

Lemma churn_ids_In (txs : list Transaction) (c : string) :
  In c (churn_ids txs) <-> exists t, In t txs /\ customer_id t = c.
Proof.
  rewrite churn_ids_keys, (group_keys_In _ _ String.eqb_eq), in_map_iff.
  split; intros [t [H1 H2]]; exists t; tauto.
Qed.

Lemma days_since_last_map (txs : list Transaction) (now : timestamp) :
  map (fun g => days_between now (snd g)) (last_transaction txs)
  = map (days_since_last txs now) (churn_ids txs).
Proof.
  unfold churn_ids, last_transaction, groupby, days_since_last.
  rewrite !map_map. reflexivity.
Qed.

Lemma len_filter_map {A B : Type} (f : A -> B) (p : B -> bool) (l : list A) :
  len (filter p (map f l)) = len (filter (fun x => p (f x)) l).
Proof.
  unfold len. f_equal.
  induction l as [|x l IH]; simpl; [reflexivity|].
  destruct (p (f x)); simpl; now rewrite IH.
Qed.

Lemma len_filter_disjoint {A : Type} (p q : A -> bool) (l : list A) :
  (forall x, p x && q x = false) ->
  (len (filter p l) + len (filter q l) <= len l)%Z.
Proof.
  intros D. unfold len. rewrite <- Nat2Z.inj_add. apply inj_le.
  induction l as [|x l IH]; simpl; [lia|].
  specialize (D x). destruct (p x), (q x); simpl in *; try discriminate; lia.
Qed.

Lemma churned_at_risk_disjoint (x : Z) : is_churned x && is_at_risk x = false.
Proof. unfold is_churned, is_at_risk. lia. Qed.

Lemma churn_ids_le_customers (d : Data) :
  no_orphans d -> (len (churn_ids (transactions d)) <= len (customers d))%Z.
Proof.
  intros H. unfold len. apply inj_le.
  rewrite <- (length_map c_customer_id (customers d)).
  apply NoDup_incl_length; [apply churn_ids_NoDup|].
  intros c Hc. apply churn_ids_In in Hc. destruct Hc as [t [Ht <-]]. now apply H.
Qed.

Lemma max_date_upper (rows : list Transaction) (t : Transaction) :
  In t rows -> (transaction_date t <= max_date rows)%Z.
Proof.
  unfold max_date, Zmax_list. destruct rows as [|r rows]; [intros []|]. simpl.
  assert (G : forall l d, (d <= fold_left Z.max l d)%Z
                          /\ forall x, In x l -> (x <= fold_left Z.max l d)%Z).
  { induction l as [|y l IH]; intros d; simpl; [split; [lia|intros x []]|].
    destruct (IH (Z.max d y)) as [I1 I2]. split; [lia|].
    intros x [->|Hx]; [lia|auto]. }
  destruct (G (map transaction_date rows) (transaction_date r)) as [G1 G2].
  intros [->|H]; [exact G1|]. apply G2. now apply in_map.
Qed.

Lemma max_date_attained (rows : list Transaction) :
  rows <> [] -> exists t, In t rows /\ transaction_date t = max_date rows.
Proof.
  unfold max_date, Zmax_list. destruct rows as [|r rows]; [congruence|]. intros _. simpl.
  assert (G : forall l d, fold_left Z.max l d = d \/ In (fold_left Z.max l d) l).
  { induction l as [|y l IH]; intros d; simpl; [now left|].
    destruct (IH (Z.max d y)) as [E|E]; [|now right; right].
    rewrite E. destruct (Z.max_spec d y) as [[_ M]|[_ M]]; rewrite M; auto. }
  destruct (G (map transaction_date rows) (transaction_date r)) as [E|E].
  - exists r. split; [now left|now rewrite E].
  - apply in_map_iff in E. destruct E as [t [E Ht]]. exists t. split; [now right|exact E].
Qed.

Lemma days_between_days (now n : Z) : days_between now (now - days n) = n.
Proof.
  unfold days_between, days, seconds_per_day.
  replace (now - (now - n * 86400))%Z with (n * 86400)%Z by lia.
  now rewrite Z.div_mul.
Qed.

(** C2, the claim as stated fails: a customer whose last transaction is 70
    days old is counted both at risk and active, so the three counts add
    up to 2 for a single customer who has a transaction. *)
Lemma churn_counts_exceed_total :
  exists r, get_churn_metrics (Some (at_risk_data 0)) 0 = Ok r
            /\ total_customers r = 1%Z
            /\ (forall c, In c (customers (at_risk_data 0)) ->
                  exists t, In t (transactions (at_risk_data 0))
                            /\ customer_id t = c_customer_id c)
            /\ ~ (active_customers r + at_risk_customers r + churned_customers r
                  <= total_customers r)%Z.
Proof.
  eexists. split; [reflexivity|]. split; [reflexivity|]. split.
  - intros c [<-|[]]. eexists. split; [now left|reflexivity].
  - vm_compute. intros H. now apply H.
Qed.

(** Orphan customer ids push the churn rate above 100. *)
Lemma churn_rate_with_orphans :
  churn_rate (churn_metrics (orphan_data 0) 0) == 200.
Proof. vm_compute. reflexivity. Qed.

(** C2, amended: for every Customers and Transactions input the churn rate
    is at least 0, and at most 100 when no transaction has an orphan
    customer id; [active_customers] is [total_customers - churned], so the
    three counts add up to at most [total_customers] exactly when nobody
    is at risk. *)
Theorem churn_rate_and_counts (d : Data) (now : timestamp) :
  exists r, get_churn_metrics (Some d) now = Ok r
    /\ 0 <= churn_rate r
    /\ (active_customers r + churned_customers r = total_customers r)%Z
    /\ ((active_customers r + at_risk_customers r + churned_customers r
         <= total_customers r)%Z <-> at_risk_customers r = 0%Z)
    /\ (no_orphans d ->
        churn_rate r <= 100
        /\ (churned_customers r + at_risk_customers r <= total_customers r)%Z).
Proof.
  exists (churn_metrics d now). split; [reflexivity|].
  unfold churn_metrics. cbn [churn_rate active_customers churned_customers
                              at_risk_customers total_customers].
  set (ds := map _ (last_transaction (transactions d))).
  set (churned := len (filter is_churned ds)).
  set (at_risk := len (filter is_at_risk ds)).
  set (total := len (customers d)).
  assert (Hc : (0 <= churned)%Z) by apply len_nonneg.
  assert (Ha : (0 <= at_risk)%Z) by apply len_nonneg.
  assert (R0 : 0 <= round2 0) by (apply Qle_bool_imp_le; reflexivity).
  assert (R100 : round2 100 <= 100) by (apply Qle_bool_imp_le; reflexivity).
  split; [|split; [lia|split; [lia|]]].
  - apply (Qle_trans _ _ _ R0). apply round2_le.
    destruct (Z.ltb_spec 0 total) as [P|P]; [|Lqa.lra].
    apply Qmult_le_0_compat; [|discriminate].
    apply Qle_shift_div_l.
    + change (inject_Z 0 < inject_Z total). now rewrite <- Zlt_Qlt.
    + rewrite Qmult_0_l. change (inject_Z 0 <= inject_Z churned). now rewrite <- Zle_Qle.
  - intros NO.
    assert (B : (churned + at_risk <= total)%Z).
    { pose proof (len_filter_disjoint is_churned is_at_risk ds churned_at_risk_disjoint) as D.
      pose proof (churn_ids_le_customers d NO) as L.
      assert (E : len ds = len (churn_ids (transactions d))).
      { unfold ds, churn_ids. now rewrite !len_map. }
      fold churned at_risk in D. unfold total. lia. }
    split; [|exact B].
    refine (Qle_trans _ _ _ _ R100). apply round2_le.
    destruct (Z.ltb_spec 0 total) as [P|P]; [|Lqa.lra].
    assert (Q1 : inject_Z churned / inject_Z total <= 1).
    { apply Qle_shift_div_r.
      - change (inject_Z 0 < inject_Z total). now rewrite <- Zlt_Qlt.
      - rewrite Qmult_1_l. rewrite <- Zle_Qle. lia. }
    Lqa.lra.
Qed.

Lemma churn_rate_and_counts_witness :
  exists r, get_churn_metrics (Some (recent_data 0)) 0 = Ok r
            /\ churn_rate r <= 100
            /\ (churned_customers r + at_risk_customers r <= total_customers r)%Z.
Proof.
  destruct (churn_rate_and_counts (recent_data 0) 0) as [r [E [_ [_ [_ H]]]]].
  exists r. split; [exact E|].
  apply H. intros t [<-|[]]. now left.
Defined.

(** C8, the claim as stated fails: with a second customer who has no
    transaction, [active_customers] is 2 although only one customer is in
    the churned / at-risk / active partition. *)
Lemma active_counts_idle_customers :
  exists r, get_churn_metrics (Some (idle_customer_data 0)) 0 = Ok r
            /\ churn_ids (transactions (idle_customer_data 0)) = ["C1"%string]
            /\ churned_customers r = 0%Z /\ at_risk_customers r = 0%Z
            /\ active_customers r = 2%Z.
Proof. eexists. repeat split. Qed.

(** C8, amended: the churned count is the number of customers present in
    Transactions whose latest transaction is more than 90 days old, the
    at-risk count the number of those with 60 < days <= 90; total_customers
    is the size of the Customer collection, and active_customers is
    total_customers minus the churned count (so it also counts the at-risk
    customers and the customers without transactions).  For Customers =
    [C1] and one C1 transaction ten days before now: churned 0, at risk 0,
    active 1, churn rate 0. *)
Theorem churn_classification (d : Data) (now : timestamp) :
  let txs := transactions d in
  exists r, get_churn_metrics (Some d) now = Ok r
    /\ NoDup (churn_ids txs)
    /\ (forall c, In c (churn_ids txs) <-> exists t, In t txs /\ customer_id t = c)
    /\ churned_customers r
       = len (filter (fun c => (90 <? days_since_last txs now c)%Z) (churn_ids txs))
    /\ at_risk_customers r
       = len (filter (fun c => (60 <? days_since_last txs now c)%Z
                               && (days_since_last txs now c <=? 90)%Z)
                     (churn_ids txs))
    /\ total_customers r = len (customers d)
    /\ active_customers r = (total_customers r - churned_customers r)%Z
    /\ get_churn_metrics (Some (recent_data now)) now
       = Ok {| churn_rate := 0; churned_customers := 0; at_risk_customers := 0;
               total_customers := 1; active_customers := 1;
               churn_threshold_days := 90 |}.
Proof.
  intros txs. exists (churn_metrics d now). split; [reflexivity|].
  split; [apply churn_ids_NoDup|]. split; [apply churn_ids_In|].
  unfold churn_metrics. cbn [churned_customers at_risk_customers total_customers
                              active_customers].
  fold txs. rewrite (days_since_last_map txs now), !len_filter_map.
  repeat split.
  unfold get_churn_metrics, try_except, churn_metrics, recent_data.
  cbn [transactions customers].
  replace (last_transaction [mk_tx "T1" "C1" (now - days 10) 100])
    with [("C1"%string, (now - days 10)%Z)] by reflexivity.
  cbn [map snd]. rewrite days_between_days. reflexivity.
Qed.

(** ** Trend aggregator *)

Lemma Qsum_ext {A : Type} (f g : A -> Q) (l : list A) :
  (forall x, In x l -> f x == g x) -> Qsum (map f l) == Qsum (map g l).
Proof.
  induction l as [|x l IH]; intros H; simpl; [reflexivity|].
  rewrite !Qsum_cons, (H x) by now left. rewrite IH; [reflexivity|].
  intros y Hy. apply H. now right.
Qed.

Lemma bucket_rows_valid (p : string) (txs : list Transaction) :
  valid_period p ->
  exists bucket_of, bucket_rows p txs = Ok (revenue_by bucket_of txs).
Proof.
  intros [-> | [-> | ->]]; eexists; reflexivity.
Qed.

Lemma bucket_rows_invalid (p : string) (txs : list Transaction) :
  ~ valid_period p -> bucket_rows p txs = Raise invalid_period.
Proof.
  intros N. unfold bucket_rows.
  destruct (String.eqb_spec p "daily"); [exfalso; apply N; now left|].
  destruct (String.eqb_spec p "weekly"); [exfalso; apply N; right; now left|].
  destruct (String.eqb_spec p "monthly"); [exfalso; apply N; right; now right|].
  reflexivity.
Qed.

Lemma bucket_rows_inv (p : string) (txs : list Transaction) (rows : list RevenueRow) :
  bucket_rows p txs = Ok rows ->
  valid_period p /\ exists bucket_of, rows = revenue_by bucket_of txs.
Proof.
  unfold bucket_rows, valid_period.
  destruct (String.eqb_spec p "daily");
    [|destruct (String.eqb_spec p "weekly");
      [|destruct (String.eqb_spec p "monthly")]];
    intros E; inversion E; subst; (split; [tauto|eexists; reflexivity]).
Qed.

Lemma revenue_by_nil (bucket_of : timestamp -> Z) (txs : list Transaction) :
  revenue_by bucket_of txs = [] <-> txs = [].
Proof.
  unfold revenue_by. split.
  - intros E. apply map_eq_nil in E.
    exact (proj1 (groupby_nil Z.leb Z.eqb Z.eqb_eq _ txs) E).
  - intros ->. reflexivity.
Qed.

Lemma idxmax_from_lt (l : list Q) (best : Q) (best_i i : nat) :
  (best_i < i)%nat -> (idxmax_from best best_i i l < i + List.length l)%nat.
Proof.
  revert best best_i i. induction l as [|x l IH]; intros best best_i i H; simpl; [lia|].
  destruct (Qle_bool x best).
  - specialize (IH best best_i (S i)). lia.
  - specialize (IH x i (S i)). lia.
Qed.

Lemma peak_exists (rows : list RevenueRow) :
  rows <> [] ->
  exists peak, (i <- idxmax (map revenue rows) ;; loc rows i) = Ok peak.
Proof.
  destruct rows as [|r rows]; [congruence|]. intros _.
  cbn [map idxmax bind].
  pose proof (idxmax_from_lt (map revenue rows) (revenue r) 0 1 Nat.lt_0_1) as L.
  rewrite length_map in L.
  unfold loc.
  destruct (nth_error (r :: rows) (idxmax_from (revenue r) 0 1 (map revenue rows))) eqn:E.
  - eexists. reflexivity.
  - apply nth_error_None in E. simpl in E. lia.
Qed.

(** What a successful call returns. *)
Lemma get_revenue_analytics_inv (d : Data) (p : string) (r : AnalyticsData) :
  get_revenue_analytics (Some d) p = Ok r ->
  valid_period p
  /\ (exists bucket_of, revenue_trends r = revenue_by bucket_of (transactions d))
  /\ total_revenue r = round2 (Qsum (map amount (transactions d)))
  /\ revenue_growth (summary r) = revenue_growth_of (map revenue (revenue_trends r)).
Proof.
  unfold get_revenue_analytics, revenue_analytics.
  destruct (bucket_rows p (transactions d)) as [rows|e] eqn:B; [|discriminate].
  cbn [bind]. apply bucket_rows_inv in B. destruct B as [V X].
  destruct (i <- idxmax (map revenue rows) ;; loc rows i) as [peak|e]; [|discriminate].
  cbn [bind try_except]. intros E. inversion E. subst r. cbn. tauto.
Qed.

(** A valid period over a non-empty collection always succeeds. *)
Lemma get_revenue_analytics_total (d : Data) (p : string) :
  valid_period p -> transactions d <> [] ->
  exists r, get_revenue_analytics (Some d) p = Ok r.
Proof.
  intros V N. unfold get_revenue_analytics, revenue_analytics.
  destruct (bucket_rows_valid p (transactions d) V) as [b ->]. cbn [bind].
  assert (NE : revenue_by b (transactions d) <> []).
  { intros E. apply N. exact (proj1 (revenue_by_nil _ _) E). }
  destruct (peak_exists _ NE) as [peak ->]. cbn [bind try_except]. eexists. reflexivity.
Qed.

(** Sums of pairwise close terms are close. *)
Lemma Qsum_close {A : Type} (e : Q) (f g : A -> Q) (l : list A) :
  (forall x, In x l -> - e <= f x - g x <= e) ->
  - (inject_Z (len l) * e) <= Qsum (map f l) - Qsum (map g l) <= inject_Z (len l) * e.
Proof.
  induction l as [|x l IH]; intros H.
  - simpl. rewrite !Qsum_nil. change (inject_Z (len (@nil A))) with 0. split; Lqa.lra.
  - cbn [map]. rewrite !Qsum_cons.
    assert (E : inject_Z (len (x :: l)) == inject_Z (len l) + 1).
    { unfold len. simpl List.length. rewrite Nat2Z.inj_succ, <- Z.add_1_r.
      now rewrite inject_Z_plus. }
    rewrite E.
    destruct (H x (or_introl eq_refl)) as [H1 H2].
    destruct IH as [I1 I2]; [intros y Hy; apply H; now right|].
    split; Lqa.lra.
Qed.

(** The bucket revenues add up to the sum of the amounts, up to half a
    cent for each bucket. *)
Lemma Qsum_revenue_by_close (bucket_of : timestamp -> Z) (txs : list Transaction) :
  let rows := revenue_by bucket_of txs in
  - (inject_Z (len rows) * (1 # 200))
  <= Qsum (map revenue rows) - Qsum (map amount txs)
  <= inject_Z (len rows) * (1 # 200).
Proof.
  intros rows.
  set (groups := groupby Z.leb Z.eqb (fun t => bucket_of (transaction_date t)) txs).
  assert (R : map revenue rows
              = map (fun g => round2 (Qsum (map amount (snd g)))) groups).
  { unfold rows, revenue_by. rewrite map_map. reflexivity. }
  assert (L : len rows = len groups).
  { unfold rows, revenue_by. apply len_map. }
  rewrite R, L.
  rewrite <- (Qsum_groupby Z.leb Z.eqb Z.eqb_eq
                (fun t => bucket_of (transaction_date t)) amount txs).
  fold groups. apply Qsum_close. intros g _. apply round2_close.
Qed.


(** Whole cents do not restore the equality: the doubles 0.10 and 0.20,
    two bucket revenues, add up to a double above 0.30, the double
    reported as their total. *)
Remark binary64_cents_do_not_add_up :
  PrimFloat.ltb (read_float (30 # 100))
                (PrimFloat.add (read_float (10 # 100)) (read_float (20 # 100)))
  = true.
Proof. vm_compute. reflexivity. Qed.



(** C4: an unknown period raises the 400 error inside the [try] block,
    and the handler turns it into the generic 500 failure. *)
Theorem invalid_period_becomes_500 (d : Data) (p : string) :
  ~ valid_period p ->
  get_revenue_analytics (Some d) p
  = Raise (HTTPException 500 "400: Invalid period. Use: daily, weekly, or monthly").
Proof.
  intros N. unfold get_revenue_analytics, revenue_analytics.
  rewrite (bucket_rows_invalid p _ N). reflexivity.
Qed.

Lemma invalid_period_becomes_500_witness :
  get_revenue_analytics (Some two_months_data) "invalid"
  = Raise (HTTPException 500 "400: Invalid period. Use: daily, weekly, or monthly").
Proof.
  apply invalid_period_becomes_500.
  intros [H|[H|H]]; discriminate H.
Defined.

(** C1: with a loaded Data Source and no transactions, the trend
    aggregator fails with the generic 500 error for each valid period
    ([idxmax] of an empty column raises); the other three analyzers
    return, with NaN for the amount threshold and for the high-value
    threshold. *)
Theorem empty_transactions_results (cs : list Customer) (now : timestamp) (p : string) :
  (valid_period p ->
   get_revenue_analytics (Some (empty_data cs)) p
   = Raise (HTTPException 500 "attempt to get argmax of an empty sequence"))
  /\ (exists e, get_revenue_analytics (Some (empty_data cs)) p = Raise e)
  /\ (exists r, get_churn_metrics (Some (empty_data cs)) now = Ok r
                /\ churn_rate r = 0 /\ churned_customers r = 0%Z
                /\ at_risk_customers r = 0%Z)
  /\ (exists r, get_anomaly_metrics (Some (empty_data cs)) = Ok r
                /\ lt_count (large_transactions r) = 0%Z
                /\ lt_threshold (large_transactions r) = LNaN
                /\ recent_anomalies r = [])
  /\ (exists r, get_high_value_customers (Some (empty_data cs)) = Ok r
                /\ high_value_threshold r = NaN
                /\ sd_customer_segments r = []).
Proof.
  split; [|split; [|split; [|split]]].
  - intros [-> | [-> | ->]]; reflexivity.
  - unfold get_revenue_analytics, revenue_analytics, bucket_rows. cbn [transactions empty_data].
    destruct (p =? "daily")%string; [eexists; reflexivity|].
    destruct (p =? "weekly")%string; [eexists; reflexivity|].
    destruct (p =? "monthly")%string; eexists; reflexivity.
  - eexists. split; [reflexivity|]. cbn.
    destruct (0 <? len cs)%Z; repeat split.
  - eexists. repeat split.
  - eexists. repeat split.
Qed.

Lemma empty_transactions_results_witness :
  get_revenue_analytics (Some (empty_data [])) "daily"
  = Raise (HTTPException 500 "attempt to get argmax of an empty sequence").
Proof.
  apply (proj1 (empty_transactions_results [] 0 "daily")). now left.
Defined.

(** ** Revenue growth *)

Lemma len_lt_2 {A : Type} (l : list A) : (1 <? len l)%Z = false <-> (List.length l < 2)%nat.
Proof. unfold len. rewrite Z.ltb_ge. lia. Qed.

Lemma revenue_growth_of_two (revenues : list Q) :
  (2 <= List.length revenues)%nat ->
  ~ hd 0 revenues == 0 ->
  revenue_growth_of revenues
  = Fin (round2 ((last revenues 0 / hd 0 revenues - 1) * 100)).
Proof.
  intros L NZ. unfold revenue_growth_of.
  assert (E : (1 <? len revenues)%Z = true) by (unfold len; apply Z.ltb_lt; lia).
  rewrite E. unfold Float.div.
  destruct (Qeq_bool (hd 0 revenues) 0) eqn:Z0.
  - exfalso. apply NZ. now apply Qeq_bool_eq.
  - reflexivity.
Qed.

Lemma revenue_growth_of_short (revenues : list Q) :
  (List.length revenues < 2)%nat -> revenue_growth_of revenues = Fin 0.
Proof.
  intros L. unfold revenue_growth_of.
  now rewrite (proj2 (len_lt_2 revenues) L).
Qed.


(** With two buckets and no revenue in the first one the quotient is
    not guarded: the reported growth is an infinity. *)
Lemma revenue_growth_zero_first_bucket :
  exists r, get_revenue_analytics (Some zero_first_data) "daily" = Ok r
    /\ map revenue (revenue_trends r) = [0; 150]
    /\ revenue_growth (summary r) = PInf.
Proof. run_call. vm_compute. repeat split. Qed.

(** The rounded figure is decided by the last bits of the quotient: from
    800 to 805 the exact growth is the tie 0.625, which rounds to 0.62 = 31/50,
    while the growth computed on doubles lies above 0.625 and rounds to
    0.63. *)
Remark binary64_growth_above_tie :
  revenue_growth_of [800; 805] = Fin (31 # 50)
  /\ PrimFloat.ltb (read_float (625 # 1000)) (growth64 (of_int 800) (of_int 805)) = true.
Proof. split; vm_compute; reflexivity. Qed.



(** ** Anomaly detector *)

Section SigmaComparisons.

Local Open Scope R_scope.

Variables d c v : Q.
Hypothesis c_nonneg : (0 <= c)%Q.
Hypothesis v_nonneg : (0 <= v)%Q.

Let D := Q2R d.
Let C := Q2R c.
Let s := sqrt (Q2R v).

Lemma sigma_facts : 0 <= C /\ 0 <= s /\ s * s = Q2R v.
Proof.
  assert (V : 0 <= Q2R v) by (rewrite <- RMicromega.Q2R_0; now apply Qle_Rle).
  repeat split.
  - unfold C. rewrite <- RMicromega.Q2R_0. now apply Qle_Rle.
  - apply sqrt_pos.
  - now apply sqrt_sqrt.
Qed.

Lemma above_sigma_R : above_sigma d c v = true <-> D > C * s.
Proof.
  destruct sigma_facts as [HC [Hs Hss]].
  unfold above_sigma. rewrite andb_true_iff, !negb_true_iff.
  rewrite <- !not_true_iff_false, !Qle_bool_iff.
  assert (M : Q2R (d * d) = D * D) by apply Q2R_mult.
  assert (N : Q2R (c * c * v) = C * C * (s * s)).
  { rewrite !Q2R_mult. fold C. now rewrite Hss. }
  split.
  - intros [P1 P2].
    assert (P1' : 0 < D).
    { unfold D. rewrite <- RMicromega.Q2R_0. apply Qlt_Rlt. now apply Qnot_le_lt. }
    assert (P2' : C * C * (s * s) < D * D).
    { rewrite <- M, <- N. apply Qlt_Rlt. now apply Qnot_le_lt. }
    destruct (Rlt_le_dec (C * s) D) as [G|G]; [exact G|].
    exfalso. assert (0 <= C * s) by now apply Rmult_le_pos. Lra.nra.
  - intros G.
    assert (0 <= C * s) by now apply Rmult_le_pos.
    split; intros L; apply Qle_Rle in L.
    + rewrite RMicromega.Q2R_0 in L. fold D in L. Lra.lra.
    + rewrite M, N in L. Lra.nra.
Qed.

Lemma atleast_sigma_R : atleast_sigma d c v = true <-> D >= C * s.
Proof.
  destruct sigma_facts as [HC [Hs Hss]].
  unfold atleast_sigma. rewrite andb_true_iff, !Qle_bool_iff.
  assert (M : Q2R (d * d) = D * D) by apply Q2R_mult.
  assert (N : Q2R (c * c * v) = C * C * (s * s)).
  { rewrite !Q2R_mult. fold C. now rewrite Hss. }
  assert (0 <= C * s) by now apply Rmult_le_pos.
  split.
  - intros [P1 P2]. apply Qle_Rle in P1, P2.
    rewrite RMicromega.Q2R_0 in P1. fold D in P1. rewrite M, N in P2.
    destruct (Rlt_le_dec D (C * s)) as [G|G]; [|Lra.lra].
    exfalso. Lra.nra.
  - intros G. split; apply Rle_Qle.
    + rewrite RMicromega.Q2R_0. fold D. Lra.lra.
    + rewrite M, N. Lra.nra.
Qed.

End SigmaComparisons.

(** The two comparisons against a threshold decide the comparisons of the
    real numbers. *)
Lemma gt_level_R (x : Q) (l : level) :
  (forall mu k v, l = LSigma mu k v -> 0 <= v) ->
  gt_level x l = true <-> exists y, level_R l = Some y /\ (Q2R x > y)%R.
Proof.
  intros V. destruct l as [|c|mu k v]; simpl.
  - split; [discriminate|]. intros [y [E _]]. discriminate.
  - rewrite negb_true_iff, <- not_true_iff_false, Qle_bool_iff. split.
    + intros N. eexists. split; [reflexivity|]. apply Qlt_Rlt. now apply Qnot_le_lt.
    + intros [y [E G]] L. inversion E. subst y. apply Qle_Rle in L. Lra.lra.
  - specialize (V mu k v eq_refl).
    destruct (Qle_bool 0 k) eqn:K.
    + apply Qle_bool_iff in K. rewrite (above_sigma_R _ _ _ K V).
      unfold Qminus. rewrite Q2R_plus, Q2R_opp. split.
      * intros G. eexists. split; [reflexivity|]. Lra.lra.
      * intros [y [E G]]. inversion E. subst y. Lra.lra.
    + assert (K' : 0 <= - k).
      { apply Qlt_le_weak. apply Qnot_le_lt. intros L.
        assert (X : Qle_bool 0 k = true).
        { apply Qle_bool_iff. Lqa.lra. }
        congruence. }
      rewrite negb_true_iff, <- not_true_iff_false, (atleast_sigma_R _ _ _ K' V).
      unfold Qminus. rewrite Q2R_plus, !Q2R_opp. split.
      * intros G. eexists. split; [reflexivity|]. Lra.lra.
      * intros [y [E G]]. inversion E. subst y. Lra.lra.
Qed.

Lemma lt_level_R (x : Q) (l : level) :
  (forall mu k v, l = LSigma mu k v -> 0 <= v) ->
  lt_level x l = true <-> exists y, level_R l = Some y /\ (Q2R x < y)%R.
Proof.
  intros V. destruct l as [|c|mu k v]; simpl.
  - split; [discriminate|]. intros [y [E _]]. discriminate.
  - rewrite negb_true_iff, <- not_true_iff_false, Qle_bool_iff. split.
    + intros N. eexists. split; [reflexivity|]. apply Qlt_Rlt. now apply Qnot_le_lt.
    + intros [y [E G]] L. inversion E. subst y. apply Qle_Rle in L. Lra.lra.
  - specialize (V mu k v eq_refl).
    destruct (Qle_bool 0 k) eqn:K.
    + apply Qle_bool_iff in K.
      rewrite negb_true_iff, <- not_true_iff_false, (atleast_sigma_R _ _ _ K V).
      unfold Qminus. rewrite Q2R_plus, Q2R_opp. split.
      * intros G. eexists. split; [reflexivity|]. Lra.lra.
      * intros [y [E G]]. inversion E. subst y. Lra.lra.
    + assert (K' : 0 <= - k).
      { apply Qlt_le_weak. apply Qnot_le_lt. intros L.
        assert (X : Qle_bool 0 k = true).
        { apply Qle_bool_iff. Lqa.lra. }
        congruence. }
      rewrite (above_sigma_R _ _ _ K' V).
      unfold Qminus. rewrite Q2R_plus, !Q2R_opp. split.
      * intros G. eexists. split; [reflexivity|]. Lra.lra.
      * intros [y [E G]]. inversion E. subst y. Lra.lra.
Qed.

Lemma Qsum_squares_nonneg (m : Q) (l : list Q) :
  0 <= Qsum (map (fun x => (x - m) * (x - m)) l).
Proof.
  induction l as [|x l IH]; simpl; [rewrite Qsum_nil; Lqa.lra|].
  rewrite Qsum_cons.
  assert (0 <= (x - m) * (x - m)).
  { generalize (x - m). intros y. unfold Qle, Qmult. simpl.
    rewrite Z.mul_1_r. apply Z.square_nonneg. }
  Lqa.lra.
Qed.

Lemma sample_var_eq (l : list Q) :
  (2 <= List.length l)%nat ->
  sample_var l
  = Some (Qsum (map (fun x => (x - Qsum l / inject_Z (len l))
                              * (x - Qsum l / inject_Z (len l))) l)
          / inject_Z (len l - 1)).
Proof.
  destruct l as [|x [|y l]]; intros L; simpl in L; try lia. reflexivity.
Qed.

Lemma sample_var_short (l : list Q) :
  (List.length l < 2)%nat -> sample_var l = None.
Proof.
  destruct l as [|x [|y l]]; intros L; simpl in L; try lia; reflexivity.
Qed.

Lemma sample_var_nonneg (l : list Q) (v : Q) : sample_var l = Some v -> 0 <= v.
Proof.
  destruct (le_lt_dec 2 (List.length l)) as [L|L].
  - rewrite (sample_var_eq l L). intros E. injection E as <-.
    apply Qle_shift_div_l.
    + change 0 with (inject_Z 0). rewrite <- Zlt_Qlt. unfold len. lia.
    + rewrite Qmult_0_l. apply Qsum_squares_nonneg.
  - rewrite (sample_var_short l L). discriminate.
Qed.

Lemma amount_threshold_var (txs : list Transaction) (mu k v : Q) :
  amount_threshold txs = LSigma mu k v -> 0 <= v.
Proof.
  unfold amount_threshold, sigma_level.
  destruct (mean (map amount txs)); try discriminate.
  destruct (sample_var (map amount txs)) eqn:E; try discriminate.
  intros X. inversion X. subst. now apply sample_var_nonneg in E.
Qed.

(** ** The amount rule on doubles *)

(** The cuts of the pairwise summation never run out of depth. *)
Lemma pairwise_sum_rec_enough (n : nat) :
  forall (a : list binary64) (d1 d2 : nat),
    List.length a = n -> (n <= d1)%nat -> (n <= d2)%nat ->
    pairwise_sum_rec d1 a = pairwise_sum_rec d2 a.
Proof.
  induction n as [n IH] using lt_wf_ind. intros a d1 d2 En L1 L2.
  destruct (Nat.leb_spec n 128) as [B|B].
  - destruct d1, d2; cbn [pairwise_sum_rec]; rewrite ?En;
      rewrite ?(proj2 (Nat.leb_le n 128) B); reflexivity.
  - destruct d1 as [|d1]; [lia|]. destruct d2 as [|d2]; [lia|].
    cbn [pairwise_sum_rec]. rewrite En.
    rewrite (proj2 (Nat.leb_gt n 128) B).
    set (n2 := (n / 2 - (n / 2) mod 8)%nat).
    assert (H2 : (n / 2 < n)%nat) by (apply Nat.div_lt; lia).
    assert (H8 : ((n / 2) mod 8 < 8)%nat) by (apply Nat.mod_upper_bound; lia).
    assert (H64 : (64 <= n / 2)%nat) by (apply Nat.div_le_lower_bound; lia).
    assert (E1 : List.length (firstn n2 a) = n2).
    { rewrite length_firstn, En. unfold n2. lia. }
    assert (E2 : List.length (skipn n2 a) = (n - n2)%nat).
    { rewrite length_skipn, En. reflexivity. }
    assert (N1 : (n2 < n)%nat) by (unfold n2; lia).
    assert (N2 : (n - n2 < n)%nat) by (unfold n2; lia).
    rewrite (IH n2 N1 (firstn n2 a) d1 d2 E1) by lia.
    rewrite (IH (n - n2)%nat N2 (skipn n2 a) d1 d2 E2) by lia.
    reflexivity.
Qed.

Lemma pairwise_sum_rec_depth (a : list binary64) (depth : nat) :
  (List.length a <= depth)%nat ->
  pairwise_sum_rec depth a = pairwise_sum a.
Proof.
  intros L. unfold pairwise_sum.
  now apply (pairwise_sum_rec_enough (List.length a)).
Qed.



(** An amount on the threshold: in exact arithmetic 0.23 is not above
    0.05 + 3 * 0.06, while the threshold computed on doubles falls just
    below the double 0.23 and the row is flagged, under either order of
    summation. *)
Remark amount_on_threshold_is_flagged :
  anomalous_transactions (transactions on_threshold_data) = []
  /\ anomalous_transactions64 pairwise_sum (transactions on_threshold_data)
     = [on_threshold_tx]
  /\ anomalous_transactions64 sequential_sum (transactions on_threshold_data)
     = [on_threshold_tx].
Proof. repeat split; vm_compute; reflexivity. Qed.

(** C6: on [unsorted_data] eleven transactions are anomalous; the list of
    recent anomalies holds the last ten rows of them in row order, dated
    day 1 to day 10 in ascending order, and leaves out the most recent
    one, dated day 400. *)
Theorem recent_anomalies_are_last_rows :
  exists r, get_anomaly_metrics (Some unsorted_data) = Ok r
    /\ map transaction_id (anomalous_transactions (transactions unsorted_data))
       = ["A00"; "A01"; "A02"; "A03"; "A04"; "A05"; "A06"; "A07"; "A08"; "A09";
          "A10"]%string
    /\ map r_transaction_id (recent_anomalies r)
       = ["A01"; "A02"; "A03"; "A04"; "A05"; "A06"; "A07"; "A08"; "A09";
          "A10"]%string
    /\ map r_transaction_date (recent_anomalies r)
       = [days 1; days 2; days 3; days 4; days 5; days 6; days 7; days 8;
          days 9; days 10].
Proof. run_call. vm_compute. repeat split. Qed.

(** ** Segmentation engine *)

(** *** Sorting and quantiles *)

Lemma Qle_bool_false (a b : Q) : Qle_bool a b = false -> b <= a.
Proof.
  intros H. apply Qlt_le_weak, Qnot_le_lt. intros L.
  apply Qle_bool_iff in L. congruence.
Qed.

Lemma insert_sorted_Forall (P : Q -> Prop) (k : Q) (l : list Q) :
  P k -> Forall P l -> Forall P (insert_sorted Qle_bool k l).
Proof.
  intros Hk Hl. induction Hl as [|x l Hx Hl IH]; simpl.
  - now constructor.
  - destruct (Qle_bool k x); repeat constructor; auto.
Qed.

Lemma insert_sorted_sorted (k : Q) (l : list Q) :
  StronglySorted Qle l -> StronglySorted Qle (insert_sorted Qle_bool k l).
Proof.
  induction 1 as [|x l Hs IH Hx]; simpl.
  - repeat constructor.
  - destruct (Qle_bool k x) eqn:E.
    + apply Qle_bool_iff in E. constructor; [now constructor|].
      constructor; [exact E|].
      eapply Forall_impl; [|exact Hx]. intros y Hy. now apply Qle_trans with x.
    + constructor; [exact IH|].
      apply insert_sorted_Forall; [now apply Qle_bool_false|exact Hx].
Qed.

Lemma sort_sorted (l : list Q) : StronglySorted Qle (sort Qle_bool l).
Proof.
  induction l as [|x l IH]; simpl; [constructor|].
  now apply insert_sorted_sorted.
Qed.

Lemma sort_length (l : list Q) : List.length (sort Qle_bool l) = List.length l.
Proof. apply Permutation_length, sort_perm. Qed.

Lemma sorted_nth (l : list Q) (d : Q) :
  StronglySorted Qle l ->
  forall i j, (i <= j)%nat -> (j < List.length l)%nat -> nth i l d <= nth j l d.
Proof.
  induction 1 as [|x l Hs IH Hx]; intros i j Hij Hj; simpl in Hj; [lia|].
  destruct i as [|i], j as [|j]; simpl; try lia.
  - apply Qle_refl.
  - rewrite Forall_forall in Hx. apply Hx, nth_In. lia.
  - apply IH; lia.
Qed.

Lemma quantile_interpolate (xs : list Q) (q : Q) :
  xs <> [] ->
  quantile xs q = Fin (interpolate (sort Qle_bool xs) (inject_Z (len xs - 1) * q)).
Proof. destruct xs; [congruence|reflexivity]. Qed.

Lemma frac_bounds (h : Q) : 0 <= h - inject_Z (Qfloor h) /\ h - inject_Z (Qfloor h) < 1.
Proof.
  pose proof (Qfloor_le h). pose proof (Qlt_floor h) as U.
  rewrite inject_Z_plus in U. change (inject_Z 1) with 1 in U. split; Lqa.lra.
Qed.

Section Interpolation.

Variable s : list Q.
Hypothesis s_sorted : StronglySorted Qle s.

Lemma neighbours (h : Q) :
  0 <= h -> h <= inject_Z (len s - 1) ->
  let lo := Z.to_nat (Qfloor h) in
  (lo < List.length s)%nat /\ nth lo s 0 <= nth (S lo) s (nth lo s 0).
Proof.
  intros H0 H1 lo.
  assert (F0 : (0 <= Qfloor h)%Z).
  { change 0%Z with (Qfloor 0). now apply Qfloor_resp_le. }
  assert (F1 : (Qfloor h <= len s - 1)%Z).
  { rewrite <- (Qfloor_Z (len s - 1)). now apply Qfloor_resp_le. }
  assert (L : (lo < List.length s)%nat) by (unfold lo, len in *; lia).
  split; [exact L|].
  destruct (le_lt_dec (List.length s) (S lo)) as [O|I].
  - rewrite (nth_overflow s _ O). apply Qle_refl.
  - rewrite (nth_indep s _ 0 I). apply sorted_nth; auto.
Qed.

Lemma interpolate_between (h : Q) :
  0 <= h -> h <= inject_Z (len s - 1) ->
  let lo := Z.to_nat (Qfloor h) in
  nth lo s 0 <= interpolate s h
  /\ interpolate s h <= nth (S lo) s (nth lo s 0).
Proof.
  intros H0 H1 lo. destruct (neighbours h H0 H1) as [_ N]. fold lo in N.
  destruct (frac_bounds h) as [B0 B1].
  unfold interpolate. fold lo.
  set (a := nth lo s 0) in *. set (b := nth (S lo) s a) in *.
  set (f := h - inject_Z (Qfloor h)) in *.
  assert (P1 : 0 <= f * (b - a)) by (apply Qmult_le_0_compat; Lqa.lra).
  assert (P2 : 0 <= (1 - f) * (b - a)) by (apply Qmult_le_0_compat; Lqa.lra).
  split; [Lqa.lra|].
  assert (E : b - (a + f * (b - a)) == (1 - f) * (b - a)) by ring.
  Lqa.lra.
Qed.

Lemma interpolate_le (h1 h2 : Q) :
  0 <= h1 -> h1 <= h2 -> h2 <= inject_Z (len s - 1) ->
  interpolate s h1 <= interpolate s h2.
Proof.
  intros H0 H12 H2.
  assert (H1 : h1 <= inject_Z (len s - 1)) by Lqa.lra.
  assert (H0' : 0 <= h2) by Lqa.lra.
  pose proof (Qfloor_resp_le _ _ H12) as F.
  assert (F0 : (0 <= Qfloor h1)%Z).
  { change 0%Z with (Qfloor 0). now apply Qfloor_resp_le. }
  destruct (interpolate_between h1 H0 H1) as [_ U1].
  destruct (interpolate_between h2 H0' H2) as [L2 _].
  destruct (neighbours h2 H0' H2) as [I2 N2].
  destruct (Z.eq_dec (Qfloor h1) (Qfloor h2)) as [E|N].
  - unfold interpolate. rewrite E.
    set (lo := Z.to_nat (Qfloor h2)) in *.
    set (a := nth lo s 0) in *. set (b := nth (S lo) s a) in *.
    assert (P : 0 <= (h2 - h1) * (b - a)) by (apply Qmult_le_0_compat; Lqa.lra).
    assert (X : (a + (h2 - inject_Z (Qfloor h2)) * (b - a))
                - (a + (h1 - inject_Z (Qfloor h2)) * (b - a))
                == (h2 - h1) * (b - a)) by ring.
    Lqa.lra.
  - apply Qle_trans with (nth (S (Z.to_nat (Qfloor h1))) s (nth (Z.to_nat (Qfloor h1)) s 0));
      [exact U1|].
    apply Qle_trans with (nth (Z.to_nat (Qfloor h2)) s 0); [|exact L2].
    assert (I : (S (Z.to_nat (Qfloor h1)) <= Z.to_nat (Qfloor h2))%nat) by lia.
    rewrite (nth_indep s _ 0) by lia.
    apply sorted_nth; auto.
Qed.

End Interpolation.

Lemma Qmult_le_nonneg_l (z x y : Q) : 0 <= z -> x <= y -> z * x <= z * y.
Proof.
  intros Hz H. rewrite (Qmult_comm z x), (Qmult_comm z y).
  now apply Qmult_le_compat_r.
Qed.

(** Quantiles grow with the percentile. *)
Lemma quantile_le (xs : list Q) (q1 q2 : Q) :
  xs <> [] -> 0 <= q1 -> q1 <= q2 -> q2 <= 1 ->
  exists v1 v2, quantile xs q1 = Fin v1 /\ quantile xs q2 = Fin v2 /\ v1 <= v2.
Proof.
  intros N H0 H12 H2.
  rewrite !quantile_interpolate by exact N.
  eexists. eexists. split; [reflexivity|]. split; [reflexivity|].
  assert (P : 0 <= inject_Z (len xs - 1)).
  { change 0 with (inject_Z 0). rewrite <- Zle_Qle. unfold len.
    destruct xs; [congruence|simpl List.length; lia]. }
  assert (E : len (sort Qle_bool xs) = len xs) by (unfold len; now rewrite sort_length).
  apply interpolate_le.
  - apply sort_sorted.
  - now apply Qmult_le_0_compat.
  - apply Qmult_le_nonneg_l; assumption.
  - rewrite E. rewrite <- (Qmult_1_r (inject_Z (len xs - 1))) at 2.
    apply Qmult_le_nonneg_l; assumption.
Qed.

(** *** Tiers *)

Lemma geb_Fin_Fin (x v : Q) : Float.geb (Fin x) (Fin v) = true <-> v <= x.
Proof. unfold Float.geb, Float.leb. apply Qle_bool_iff. Qed.

Lemma ltb_Fin_Fin (x v : Q) : Float.ltb (Fin x) (Fin v) = true <-> x < v.
Proof.
  unfold Float.ltb. rewrite negb_true_iff, <- not_true_iff_false, Qle_bool_iff.
  split; [apply Qnot_le_lt|apply Qlt_not_le].
Qed.

(** The four cut points, in ascending order. *)
Lemma cut_points (xs : list Q) :
  xs <> [] ->
  exists p40 p60 p80 p95,
    quantile xs (40 # 100) = Fin p40 /\ quantile xs (60 # 100) = Fin p60
    /\ quantile xs (80 # 100) = Fin p80 /\ quantile xs (95 # 100) = Fin p95
    /\ p40 <= p60 /\ p60 <= p80 /\ p80 <= p95.
Proof.
  intros N.
  destruct (quantile_le xs (40 # 100) (60 # 100) N) as [a [b [Ea [Eb L1]]]];
    try (apply Qle_bool_imp_le; reflexivity).
  destruct (quantile_le xs (60 # 100) (80 # 100) N) as [b' [c [Eb' [Ec L2]]]];
    try (apply Qle_bool_imp_le; reflexivity).
  destruct (quantile_le xs (80 # 100) (95 # 100) N) as [c' [d [Ec' [Ed L3]]]];
    try (apply Qle_bool_imp_le; reflexivity).
  rewrite Eb in Eb'. inversion Eb'. subst b'.
  rewrite Ec in Ec'. inversion Ec'. subst c'.
  exists a, b, c, d. tauto.
Qed.

(** Membership in each tier, as inequalities on the spend. *)
Lemma tier_spec (cs : list Profile) (p : Profile) :
  cs <> [] ->
  exists p40 p60 p80 p95,
    quantile (map total_spent cs) (40 # 100) = Fin p40
    /\ quantile (map total_spent cs) (60 # 100) = Fin p60
    /\ quantile (map total_spent cs) (80 # 100) = Fin p80
    /\ quantile (map total_spent cs) (95 # 100) = Fin p95
    /\ p40 <= p60 /\ p60 <= p80 /\ p80 <= p95
    /\ (In p (tier cs 0) <-> In p cs /\ p95 <= total_spent p)
    /\ (In p (tier cs 1) <-> In p cs /\ p80 <= total_spent p /\ total_spent p < p95)
    /\ (In p (tier cs 2) <-> In p cs /\ p60 <= total_spent p /\ total_spent p < p80)
    /\ (In p (tier cs 3) <-> In p cs /\ p40 <= total_spent p /\ total_spent p < p60).
Proof.
  intros N.
  assert (N' : map total_spent cs <> []) by (destruct cs; [congruence|discriminate]).
  destruct (cut_points _ N') as [p40 [p60 [p80 [p95 [E40 [E60 [E80 [E95 [L1 [L2 L3]]]]]]]]]].
  exists p40, p60, p80, p95.
  repeat (split; [assumption|]).
  unfold tier, tier_percentile, segment_customers. cbn [nth spending_percentiles].
  rewrite !filter_In, E40, E60, E80, E95.
  rewrite ?andb_true_iff, ?geb_Fin_Fin, ?ltb_Fin_Fin.
  repeat split; tauto.
Qed.

Lemma tier_nil (i : nat) : tier [] i = [].
Proof. unfold tier, segment_customers. destruct i; reflexivity. Qed.

Lemma tier_disjoint (cs : list Profile) (p : Profile) (i j : nat) :
  (i < 4)%nat -> (j < 4)%nat -> In p (tier cs i) -> In p (tier cs j) -> i = j.
Proof.
  intros Hi Hj Pi Pj.
  destruct cs as [|c cs]; [rewrite tier_nil in Pi; destruct Pi|].
  destruct (tier_spec (c :: cs) p) as
    [p40 [p60 [p80 [p95 [_ [_ [_ [_ [L1 [L2 [L3 [T0 [T1 [T2 T3]]]]]]]]]]]]]];
    [discriminate|].
  destruct i as [|[|[|[|i]]]]; try lia;
    destruct j as [|[|[|[|j]]]]; try lia; try reflexivity; exfalso;
    repeat match goal with
           | H : In p (tier _ 0) |- _ => apply T0 in H
           | H : In p (tier _ 1) |- _ => apply T1 in H
           | H : In p (tier _ 2) |- _ => apply T2 in H
           | H : In p (tier _ 3) |- _ => apply T3 in H
           end;
    Lqa.lra.
Qed.

(** *** Reported entries *)

Lemma customer_segments_unfold (cs : list Profile) :
  customer_segments cs
  = flat_map (fun i => if (0 <? len (tier cs i))%Z
                       then [segment_entry cs (tier_name i) (tier cs i)]
                       else [])
             [0; 1; 2; 3]%nat.
Proof.
  unfold customer_segments. cbn [combine spending_percentiles segment_names
                                  segments_loop flat_map].
  now rewrite !app_nil_r.
Qed.

Lemma customer_segments_In (cs : list Profile) (e : SegmentEntry) :
  In e (customer_segments cs) <->
  exists i, (i < 4)%nat /\ tier cs i <> []
            /\ e = segment_entry cs (tier_name i) (tier cs i).
Proof.
  rewrite customer_segments_unfold, in_flat_map. split.
  - intros [i [Hi He]].
    assert (I4 : (i < 4)%nat) by (simpl in Hi; lia).
    exists i. split; [exact I4|].
    destruct (Z.ltb_spec 0 (len (tier cs i))) as [P|P]; [|destruct He].
    destruct He as [<-|[]]. split; [|reflexivity].
    intros E. rewrite E in P. unfold len in P. simpl in P. lia.
  - intros [i [Hi [N ->]]]. exists i. split; [simpl; lia|].
    destruct (Z.ltb_spec 0 (len (tier cs i))) as [P|P]; [now left|].
    exfalso. apply N. destruct (tier cs i); [reflexivity|].
    unfold len in P. simpl in P. lia.
Qed.

Lemma fold_min_spec (l : list Q) (x : Q) :
  let m := fold_left (fun a b => if Qle_bool a b then a else b) l x in
  In m (x :: l) /\ forall y, In y (x :: l) -> m <= y.
Proof.
  revert x. induction l as [|z l IH]; intros x; simpl.
  - split; [now left|]. intros y [<-|[]]. apply Qle_refl.
  - destruct (IH (if Qle_bool x z then x else z)) as [I M]. split.
    + destruct I as [I|I]; [|now right; right].
      rewrite <- I. destruct (Qle_bool x z); [now left|right; now left].
    + intros y Hy.
      assert (B : (if Qle_bool x z then x else z) <= x
                  /\ (if Qle_bool x z then x else z) <= z).
      { destruct (Qle_bool x z) eqn:E.
        - apply Qle_bool_iff in E. split; [apply Qle_refl|exact E].
        - apply Qle_bool_false in E. split; [exact E|apply Qle_refl]. }
      pose proof (M _ (or_introl eq_refl)) as M0.
      destruct Hy as [<-|[<-|Hy]].
      * apply Qle_trans with (1 := M0). tauto.
      * apply Qle_trans with (1 := M0). tauto.
      * apply M. now right.
Qed.

Lemma fold_max_spec (l : list Q) (x : Q) :
  let m := fold_left (fun a b => if Qle_bool b a then a else b) l x in
  In m (x :: l) /\ forall y, In y (x :: l) -> y <= m.
Proof.
  revert x. induction l as [|z l IH]; intros x; simpl.
  - split; [now left|]. intros y [<-|[]]. apply Qle_refl.
  - destruct (IH (if Qle_bool z x then x else z)) as [I M]. split.
    + destruct I as [I|I]; [|now right; right].
      rewrite <- I. destruct (Qle_bool z x); [now left|right; now left].
    + intros y Hy.
      assert (B : x <= (if Qle_bool z x then x else z)
                  /\ z <= (if Qle_bool z x then x else z)).
      { destruct (Qle_bool z x) eqn:E.
        - apply Qle_bool_iff in E. split; [apply Qle_refl|exact E].
        - apply Qle_bool_false in E. split; [exact E|apply Qle_refl]. }
      pose proof (M _ (or_introl eq_refl)) as M0.
      destruct Hy as [<-|[<-|Hy]].
      * apply Qle_trans with (2 := M0). tauto.
      * apply Qle_trans with (2 := M0). tauto.
      * apply M. now right.
Qed.

Lemma Qmin_list_spec (l : list Q) :
  l <> [] -> exists m, Qmin_list l = Fin m /\ In m l /\ forall y, In y l -> m <= y.
Proof.
  destruct l as [|x l]; [congruence|]. intros _.
  eexists. split; [reflexivity|]. apply fold_min_spec.
Qed.

Lemma Qmax_list_spec (l : list Q) :
  l <> [] -> exists m, Qmax_list l = Fin m /\ In m l /\ forall y, In y l -> y <= m.
Proof.
  destruct l as [|x l]; [congruence|]. intros _.
  eexists. split; [reflexivity|]. apply fold_max_spec.
Qed.

(** The total spend of a profile is already rounded. *)
Lemma total_spent_rounded (txs : list Transaction) (p : Profile) :
  In p (customer_spending txs) -> round2 (total_spent p) = total_spent p.
Proof.
  unfold customer_spending. rewrite in_map_iff. intros [g [<- _]].
  apply round2_idem.
Qed.

Lemma tier_incl (cs : list Profile) (i : nat) (p : Profile) :
  In p (tier cs i) -> In p cs.
Proof.
  unfold tier, segment_customers. destruct i; rewrite filter_In; tauto.
Qed.

(** The reported minimum and maximum of a tier are the spends of two of
    its members. *)
Lemma segment_entry_min_max (txs : list Transaction) (i : nat) (name : string) :
  let cs := customer_spending txs in
  tier cs i <> [] ->
  exists lo hi,
    In lo (tier cs i) /\ In hi (tier cs i)
    /\ min_spend (segment_entry cs name (tier cs i)) = Fin (total_spent lo)
    /\ max_spend (segment_entry cs name (tier cs i)) = Fin (total_spent hi)
    /\ forall p, In p (tier cs i) ->
                 total_spent lo <= total_spent p /\ total_spent p <= total_spent hi.
Proof.
  intros cs N.
  assert (N' : map total_spent (tier cs i) <> []).
  { destruct (tier cs i); [congruence|discriminate]. }
  destruct (Qmin_list_spec _ N') as [m [Em [Im Lm]]].
  destruct (Qmax_list_spec _ N') as [M [EM [IM LM]]].
  apply in_map_iff in Im. destruct Im as [lo [<- Ilo]].
  apply in_map_iff in IM. destruct IM as [hi [<- Ihi]].
  exists lo, hi. split; [exact Ilo|]. split; [exact Ihi|].
  unfold segment_entry. cbn [min_spend max_spend]. rewrite Em, EM.
  cbn [fround2].
  rewrite (total_spent_rounded txs lo) by (eapply tier_incl; exact Ilo).
  rewrite (total_spent_rounded txs hi) by (eapply tier_incl; exact Ihi).
  split; [reflexivity|]. split; [reflexivity|].
  intros p Hp. split; [apply Lm|apply LM]; now apply in_map.
Qed.

(** C7: the four tiers are pairwise disjoint; each reported tier has its
    minimum spend at or above its lower percentile bound and, except for
    Platinum, its maximum spend strictly below its upper percentile bound;
    a customer whose spend is below the 40th percentile is in no tier. *)
Theorem segmentation_tiers (txs : list Transaction) :
  let cs := customer_spending txs in
  let spent := map total_spent cs in
  (forall p i j, (i < 4)%nat -> (j < 4)%nat ->
                 In p (tier cs i) -> In p (tier cs j) -> i = j)
  /\ (forall e, In e (customer_segments cs) ->
        exists i, (i < 4)%nat /\ segment e = tier_name i
          /\ Float.leb (quantile spent (tier_percentile i)) (min_spend e) = true
          /\ (i <> 0%nat ->
              Float.ltb (max_spend e) (quantile spent (tier_percentile (i - 1)))
              = true))
  /\ (forall p i, In p cs -> (i < 4)%nat ->
                  Float.ltb (Fin (total_spent p)) (quantile spent (40 # 100)) = true ->
                  ~ In p (tier cs i)).
Proof.
  intros cs spent. split; [|split].
  - intros p i j. apply tier_disjoint.
  - intros e He. apply customer_segments_In in He.
    destruct He as [i [Hi [N ->]]].
    exists i. split; [exact Hi|]. split; [reflexivity|].
    destruct (segment_entry_min_max txs i (tier_name i) N)
      as [lo [hi [Ilo [Ihi [Emin [Emax _]]]]]].
    fold cs in Emin, Emax. rewrite Emin, Emax.
    assert (C : cs <> []).
    { intros E. apply N. unfold cs in E |- *. rewrite E. apply tier_nil. }
    destruct (tier_spec cs lo C) as
      [p40 [p60 [p80 [p95 [E40 [E60 [E80 [E95 [_ [_ [_ [L0 [L1 [L2 L3]]]]]]]]]]]]]].
    destruct (tier_spec cs hi C) as
      [q40 [q60 [q80 [q95 [F40 [F60 [F80 [F95 [_ [_ [_ [H0 [H1 [H2 H3]]]]]]]]]]]]]].
    rewrite E40 in F40. rewrite E60 in F60. rewrite E80 in F80. rewrite E95 in F95.
    inversion F40. inversion F60. inversion F80. inversion F95. subst q40 q60 q80 q95.
    unfold spent, tier_percentile.
    destruct i as [|[|[|[|i]]]]; try lia; cbn [nth spending_percentiles Nat.sub];
      rewrite ?E40, ?E60, ?E80, ?E95;
      change (Float.leb (Fin ?a) (Fin ?b)) with (Float.geb (Fin b) (Fin a));
      rewrite ?geb_Fin_Fin, ?ltb_Fin_Fin.
    + apply L0 in Ilo. split; [tauto|congruence].
    + apply L1 in Ilo. apply H1 in Ihi. split; [tauto|intros _; tauto].
    + apply L2 in Ilo. apply H2 in Ihi. split; [tauto|intros _; tauto].
    + apply L3 in Ilo. apply H3 in Ihi. split; [tauto|intros _; tauto].
  - intros p i Hp Hi B T.
    assert (C : cs <> []) by (intros E; rewrite E in Hp; destruct Hp).
    destruct (tier_spec cs p C) as
      [p40 [p60 [p80 [p95 [E40 [_ [_ [_ [L1 [L2 [L3 [T0 [T1 [T2 T3]]]]]]]]]]]]]].
    unfold spent in B. rewrite E40 in B. apply ltb_Fin_Fin in B.
    destruct i as [|[|[|[|i]]]]; try lia.
    + apply T0 in T. Lqa.lra.
    + apply T1 in T. Lqa.lra.
    + apply T2 in T. Lqa.lra.
    + apply T3 in T. Lqa.lra.
Qed.

Lemma segmentation_tiers_witness :
  tier (customer_spending single_customer_txs) 0 <> []
  /\ tier (customer_spending single_customer_txs) 1 = [].
Proof.
  destruct (segmentation_tiers single_customer_txs) as [D _].
  split; [discriminate|].
  destruct (tier (customer_spending single_customer_txs) 1) as [|p l] eqn:E;
    [reflexivity|].
  exfalso.
  assert (X : 0%nat = 1%nat).
  { apply (D p 0%nat 1%nat); [lia|lia| |rewrite E; now left].
    assert (I : In p (customer_spending single_customer_txs)).
    { apply (tier_incl _ 1%nat). rewrite E. now left. }
    destruct I as [<-|[]]. now left. }
  discriminate X.
Defined.

(** C10: every entry of customer_segments has a positive customer_count,
    a tier without customers has no entry, and the list can be shorter
    than four even when there are spend profiles: a single customer gives
    the Platinum entry only. *)
Theorem empty_tiers_omitted (txs : list Transaction) :
  let cs := customer_spending txs in
  (forall e, In e (customer_segments cs) -> (0 < customer_count e)%Z)
  /\ (forall i, (i < 4)%nat -> tier cs i = [] ->
                forall e, In e (customer_segments cs) -> segment e <> tier_name i)
  /\ (List.length (customer_segments cs) <= 4)%nat
  /\ customer_spending single_customer_txs <> []
  /\ map segment (customer_segments (customer_spending single_customer_txs))
     = ["Platinum"%string].
Proof.
  intros cs. split; [|split; [|split; [|split]]].
  - intros e He. apply customer_segments_In in He.
    destruct He as [i [_ [N ->]]]. cbn [segment_entry customer_count].
    destruct (tier cs i); [congruence|]. unfold len. simpl. lia.
  - intros i Hi E e He. apply customer_segments_In in He.
    destruct He as [j [Hj [N ->]]]. cbn [segment_entry segment].
    intros X.
    assert (i = j).
    { destruct i as [|[|[|[|i]]]]; try lia;
        destruct j as [|[|[|[|j]]]]; try lia; try reflexivity; discriminate X. }
    subst j. congruence.
  - rewrite customer_segments_unfold. cbn [flat_map].
    rewrite !length_app.
    repeat match goal with
           | |- context [if ?b then _ else _] => destruct b
           end; simpl; lia.
  - discriminate.
  - vm_compute. reflexivity.
Qed.

Lemma empty_tiers_omitted_witness :
  Forall (fun e => segment e <> "Gold"%string)
         (customer_segments (customer_spending single_customer_txs)).
Proof.
  destruct (empty_tiers_omitted single_customer_txs) as [_ [H _]].
  apply Forall_forall. apply (H 1%nat); [lia|vm_compute; reflexivity].
Defined.

(** ** Further properties of the trend aggregator *)

(** *** Sorting with a total comparison *)

Section SortFacts.

Context {A : Type}.
Variable leb : A -> A -> bool.
Variable R : A -> A -> Prop.
Hypothesis leb_true : forall a b, leb a b = true -> R a b.
Hypothesis leb_false : forall a b, leb a b = false -> R b a.
Hypothesis R_trans : forall a b c, R a b -> R b c -> R a c.

Lemma insert_sorted_Forall_gen (P : A -> Prop) (k : A) (l : list A) :
  P k -> Forall P l -> Forall P (insert_sorted leb k l).
Proof.
  intros Hk Hl. induction Hl as [|x l Hx Hl IH]; simpl.
  - now constructor.
  - destruct (leb k x); repeat constructor; auto.
Qed.

Lemma insert_sorted_sorted_gen (k : A) (l : list A) :
  StronglySorted R l -> StronglySorted R (insert_sorted leb k l).
Proof.
  induction 1 as [|x l Hs IH Hx]; simpl.
  - repeat constructor.
  - destruct (leb k x) eqn:E.
    + apply leb_true in E. constructor; [now constructor|].
      constructor; [exact E|].
      eapply Forall_impl; [|exact Hx]. intros y Hy. now apply R_trans with x.
    + constructor; [exact IH|].
      apply insert_sorted_Forall_gen; [now apply leb_false|exact Hx].
Qed.

Lemma sort_sorted_gen (l : list A) : StronglySorted R (sort leb l).
Proof.
  induction l as [|x l IH]; simpl; [constructor|].
  now apply insert_sorted_sorted_gen.
Qed.

End SortFacts.

Lemma sorted_NoDup_strict (l : list Z) :
  StronglySorted Z.le l -> NoDup l -> StronglySorted Z.lt l.
Proof.
  induction 1 as [|x l Hs IH Hx]; intros ND; [constructor|].
  inversion ND as [|? ? Hn ND']; subst.
  constructor; [now apply IH|].
  rewrite Forall_forall in *. intros y Hy.
  specialize (Hx y Hy).
  assert (x <> y) by (intros ->; contradiction).
  lia.
Qed.

Lemma group_keys_ascending (l : list Z) :
  StronglySorted Z.lt (group_keys Z.leb Z.eqb l).
Proof.
  apply sorted_NoDup_strict.
  - unfold group_keys.
    apply (sort_sorted_gen Z.leb Z.le); intros; lia.
  - apply group_keys_NoDup, Z.eqb_eq.
Qed.

(** *** Counting by key *)

Lemma Zsum_cons (x : Z) (l : list Z) : Zsum (x :: l) = (x + Zsum l)%Z.
Proof. reflexivity. Qed.

Section CountByKey.

Context {K A : Type}.
Variable eqb : K -> K -> bool.
Hypothesis eqb_eq : forall x y, eqb x y = true <-> x = y.
Variable key : A -> K.

Lemma Zsum_indicator (k0 : K) (ks : list K) :
  NoDup ks -> In k0 ks ->
  Zsum (map (fun k => if eqb k0 k then 1%Z else 0%Z) ks) = 1%Z.
Proof.
  induction 1 as [|k ks Hk Hnd IH]; intros Hin; [destruct Hin|].
  simpl. destruct (eqb k0 k) eqn:E.
  - apply eqb_eq in E. subst k.
    assert (Z0 : Zsum (map (fun k => if eqb k0 k then 1%Z else 0%Z) ks) = 0%Z).
    { clear IH Hin Hnd. induction ks as [|k ks IH]; simpl; [reflexivity|].
      destruct (eqb k0 k) eqn:E.
      - apply eqb_eq in E. subst. exfalso. apply Hk. now left.
      - rewrite IH; [reflexivity|]. intros H. apply Hk. now right. }
    rewrite Z0. reflexivity.
  - destruct Hin as [->|Hin].
    + assert (X : eqb k0 k0 = true) by now apply eqb_eq. congruence.
    + now rewrite (IH Hin).
Qed.

Lemma count_by_key (ks : list K) (rows : list A) :
  NoDup ks -> (forall r, In r rows -> In (key r) ks) ->
  Zsum (map (fun k => len (filter (fun r => eqb (key r) k) rows)) ks) = len rows.
Proof.
  intros Hnd. induction rows as [|r rows IH]; intros Hin.
  - simpl. clear. induction ks as [|k ks IH]; simpl; [reflexivity|].
    now rewrite IH.
  - assert (E : Zsum (map (fun k => len (filter (fun r0 => eqb (key r0) k) (r :: rows))) ks)
                = (Zsum (map (fun k => if eqb (key r) k then 1 else 0) ks)
                   + Zsum (map (fun k => len (filter (fun r0 => eqb (key r0) k) rows)) ks))%Z).
    { clear. induction ks as [|k ks IH]; [reflexivity|].
      rewrite !map_cons, !Zsum_cons, IH. cbn [filter].
      destruct (eqb (key r) k); unfold len; simpl List.length; lia. }
    rewrite E, IH by (intros; apply Hin; now right).
    rewrite Zsum_indicator; [unfold len; simpl List.length; lia|exact Hnd|].
    apply Hin. now left.
Qed.

Lemma count_groupby (leb : K -> K -> bool) (rows : list A) :
  Zsum (map (fun g => len (snd g)) (groupby leb eqb key rows)) = len rows.
Proof.
  unfold groupby. rewrite map_map. simpl.
  apply count_by_key.
  - now apply group_keys_NoDup.
  - intros r Hr. apply group_keys_In; [exact eqb_eq|]. now apply in_map.
Qed.

End CountByKey.

Lemma unique_length_le {K : Type} (eqb : K -> K -> bool) (l : list K) :
  (List.length (unique eqb l) <= List.length l)%nat.
Proof.
  induction l as [|x l IH]; simpl; [lia|].
  destruct (existsb (eqb x) l); simpl; lia.
Qed.

Lemma unique_nonempty {K : Type} (eqb : K -> K -> bool) (l : list K) :
  l <> [] -> unique eqb l <> [].
Proof.
  induction l as [|x l IH]; [congruence|]. intros _. simpl.
  destruct (existsb (eqb x) l) eqn:E; [|discriminate].
  apply IH. destruct l; [discriminate|discriminate].
Qed.

(** The remaining fields of a successful call. *)
Lemma get_revenue_analytics_fields (d : Data) (p : string) (r : AnalyticsData) :
  get_revenue_analytics (Some d) p = Ok r ->
  period_used r = p
  /\ total_transactions r = len (transactions d)
  /\ data_points r = len (revenue_trends r)
  /\ avg_daily_revenue (summary r) = fround2 (mean (map revenue (revenue_trends r)))
  /\ (i <- idxmax (map revenue (revenue_trends r)) ;; loc (revenue_trends r) i)
     = Ok (peak_revenue_day (summary r)).
Proof.
  unfold get_revenue_analytics, revenue_analytics.
  destruct (bucket_rows p (transactions d)) as [rows|e] eqn:B; [|discriminate].
  cbn [bind].
  destruct (i <- idxmax (map revenue rows) ;; loc rows i) as [peak|e] eqn:P; [|discriminate].
  cbn [bind try_except]. intros E. inversion E. subst r. cbn.
  repeat split. exact P.
Qed.

(** X1: with the data loaded, the trend aggregator returns a result exactly
    when the period is valid and there is at least one transaction; every
    failure it reports then carries status 500; without data it reports
    status 503. *)
Theorem revenue_analytics_outcome (d : Data) (p : string) :
  ((exists r, get_revenue_analytics (Some d) p = Ok r)
   <-> valid_period p /\ transactions d <> [])
  /\ (forall e, get_revenue_analytics (Some d) p = Raise e ->
                exists detail, e = HTTPException 500 detail)
  /\ get_revenue_analytics None p = Raise (HTTPException 503 "Data not available").
Proof.
  split; [|split; [|reflexivity]].
  - split.
    + intros [r E]. pose proof (get_revenue_analytics_inv d p r E) as [V [[b Eb] _]].
      split; [exact V|]. intros N.
      apply get_revenue_analytics_fields in E. destruct E as [_ [_ [_ [_ P]]]].
      rewrite Eb, N in P. discriminate P.
    + intros [V N]. now apply get_revenue_analytics_total.
  - unfold get_revenue_analytics. intros e.
    destruct (revenue_analytics d p) as [r|e']; cbn [try_except]; [discriminate|].
    intros E. inversion E. eexists. reflexivity.
Qed.

Lemma revenue_analytics_outcome_witness :
  exists detail,
    get_revenue_analytics (Some (empty_data [])) "weekly"
    = Raise (HTTPException 500 detail).
Proof.
  destruct (get_revenue_analytics (Some (empty_data [])) "weekly") as [r|e] eqn:E.
  - exfalso.
    destruct (revenue_analytics_outcome (empty_data []) "weekly") as [[H _] _].
    destruct (H (ex_intro _ r E)) as [_ N]. now apply N.
  - destruct (revenue_analytics_outcome (empty_data []) "weekly") as [_ [H _]].
    destruct (H e E) as [detail ->]. now exists detail.
Defined.

(** X2: in every trend result the bucket counts add up to
    total_transactions, every bucket holds at least one transaction and
    between one and that many distinct customers, and data_points is
    between 1 and total_transactions. *)
Theorem bucket_counts (d : Data) (p : string) (r : AnalyticsData) :
  get_revenue_analytics (Some d) p = Ok r ->
  Zsum (map n_transactions (revenue_trends r)) = total_transactions r
  /\ Forall (fun row => (1 <= unique_customers row <= n_transactions row)%Z)
            (revenue_trends r)
  /\ (1 <= data_points r <= total_transactions r)%Z.
Proof.
  intros E.
  pose proof (get_revenue_analytics_inv d p r E) as [V [[b Eb] _]].
  pose proof (get_revenue_analytics_fields d p r E) as [_ [Et [Ed [_ P]]]].
  assert (S : Zsum (map n_transactions (revenue_trends r)) = len (transactions d)).
  { rewrite Eb. unfold revenue_by. rewrite map_map. cbn [n_transactions].
    rewrite <- (count_groupby Z.eqb Z.eqb_eq
                  (fun t => b (transaction_date t)) Z.leb (transactions d)).
    f_equal. apply map_ext. intros g. apply len_map. }
  assert (F : Forall (fun row => (1 <= unique_customers row <= n_transactions row)%Z)
                     (revenue_trends r)).
  { rewrite Eb. unfold revenue_by. apply Forall_forall. intros row Hrow.
    apply in_map_iff in Hrow. destruct Hrow as [g [<- Hg]].
    cbn [unique_customers n_transactions].
    apply (groupby_nonempty Z.leb Z.eqb Z.eqb_eq) in Hg.
    pose proof (unique_length_le String.eqb (map customer_id (snd g))) as U.
    assert (NE : unique String.eqb (map customer_id (snd g)) <> []).
    { apply unique_nonempty. destruct (snd g); [congruence|discriminate]. }
    rewrite length_map in U. rewrite len_map. unfold len.
    destruct (unique String.eqb (map customer_id (snd g))); [congruence|].
    simpl List.length in *. lia. }
  split; [now rewrite Et|]. split; [exact F|].
  rewrite Ed, Et, <- S.
  assert (NE : revenue_trends r <> []).
  { intros N. rewrite N in P. discriminate P. }
  clear - F NE. induction F as [|row rows Hrow F IH]; [congruence|].
  simpl. unfold len in *. simpl List.length.
  destruct rows as [|row' rows].
  - simpl. lia.
  - assert (X : row' :: rows <> []) by discriminate.
    specialize (IH X). simpl List.length in IH. simpl in IH |- *. lia.
Qed.

Lemma bucket_counts_witness :
  exists r, get_revenue_analytics (Some two_days_data) "daily" = Ok r
    /\ Zsum (map n_transactions (revenue_trends r)) = 4%Z
    /\ total_transactions r = 4%Z.
Proof.
  run_call.
  match goal with
  | |- Zsum (map n_transactions (revenue_trends ?x)) = _ /\ _ =>
      destruct (bucket_counts two_days_data "daily" x) as [S _];
      [vm_compute; reflexivity|]
  end.
  split; [rewrite S|]; vm_compute; reflexivity.
Defined.

(** X3: the buckets of a trend result are emitted in strictly ascending
    bucket order, one row per bucket, whatever the order of the rows of
    Transactions. *)
Theorem buckets_ascending (d : Data) (p : string) (r : AnalyticsData) :
  get_revenue_analytics (Some d) p = Ok r ->
  StronglySorted Z.lt (map bucket (revenue_trends r)).
Proof.
  intros E.
  pose proof (get_revenue_analytics_inv d p r E) as [_ [[b Eb] _]].
  rewrite Eb. unfold revenue_by, groupby. rewrite !map_map. cbn [bucket fst].
  rewrite map_id. apply group_keys_ascending.
Qed.

Lemma buckets_ascending_witness :
  exists r, get_revenue_analytics (Some two_days_data) "daily" = Ok r
    /\ map bucket (revenue_trends r) = [2; 5]%Z
    /\ StronglySorted Z.lt (map bucket (revenue_trends r)).
Proof.
  run_call. split; [vm_compute; reflexivity|].
  apply (buckets_ascending two_days_data "daily"). vm_compute. reflexivity.
Defined.

(** *** The peak bucket *)

Lemma idxmax_from_spec (pre l : list Q) (best : Q) (best_i : nat) :
  (best_i < List.length pre)%nat ->
  nth best_i (pre ++ l) 0 = best ->
  (forall j, (j < List.length pre)%nat -> nth j (pre ++ l) 0 <= best) ->
  (forall j, (j < best_i)%nat -> nth j (pre ++ l) 0 < best) ->
  let k := idxmax_from best best_i (List.length pre) l in
  (k < List.length (pre ++ l))%nat
  /\ (forall j, (j < List.length (pre ++ l))%nat ->
                nth j (pre ++ l) 0 <= nth k (pre ++ l) 0)
  /\ (forall j, (j < k)%nat -> nth j (pre ++ l) 0 < nth k (pre ++ l) 0).
Proof.
  revert pre best best_i. induction l as [|x l IH]; intros pre best best_i Hb Eb Hle Hlt.
  - simpl. rewrite app_nil_r in *. rewrite Eb. repeat split; auto.
  - simpl.
    assert (A : pre ++ x :: l = (pre ++ [x]) ++ l) by now rewrite <- app_assoc.
    assert (L : List.length (pre ++ [x]) = S (List.length pre))
      by (rewrite length_app; simpl; lia).
    assert (Nx : nth (List.length pre) (pre ++ x :: l) 0 = x).
    { rewrite app_nth2 by lia. now rewrite Nat.sub_diag. }
    destruct (Qle_bool x best) eqn:C.
    + apply Qle_bool_iff in C.
      specialize (IH (pre ++ [x]) best best_i).
      rewrite L, <- A in IH. apply IH; auto; try lia.
      intros j Hj. destruct (Nat.eq_dec j (List.length pre)) as [->|N].
      * now rewrite Nx.
      * apply Hle. lia.
    + assert (C' : best < x).
      { apply Qnot_le_lt. intros X. apply Qle_bool_iff in X. congruence. }
      apply Qle_bool_false in C.
      specialize (IH (pre ++ [x]) x (List.length pre)).
      rewrite L, <- A in IH. apply IH; auto; try lia.
      * intros j Hj. destruct (Nat.eq_dec j (List.length pre)) as [->|N].
        -- rewrite Nx. apply Qle_refl.
        -- apply Qle_trans with best; [apply Hle; lia|exact C].
      * intros j Hj. apply Qle_lt_trans with best; [now apply Hle|exact C'].
Qed.

Lemma nth_map_revenue (rows : list RevenueRow) (j : nat) (row : RevenueRow) :
  nth_error rows j = Some row -> nth j (map revenue rows) 0 = revenue row.
Proof.
  revert j. induction rows as [|x rows IH]; intros [|j] E; simpl in *; try discriminate.
  - now inversion E.
  - now apply IH.
Qed.

(** X4: the peak bucket of a trend result is one of its rows, no row has
    a larger revenue, and every earlier row has a strictly smaller one
    (among equal maxima the first in bucket order is reported). *)
Theorem peak_is_first_maximum (d : Data) (p : string) (r : AnalyticsData) :
  get_revenue_analytics (Some d) p = Ok r ->
  let peak := peak_revenue_day (summary r) in
  exists i, nth_error (revenue_trends r) i = Some peak
    /\ (forall row, In row (revenue_trends r) -> revenue row <= revenue peak)
    /\ (forall j row, (j < i)%nat -> nth_error (revenue_trends r) j = Some row ->
                      revenue row < revenue peak).
Proof.
  intros E peak.
  apply get_revenue_analytics_fields in E. destruct E as [_ [_ [_ [_ P]]]].
  fold peak in P.
  destruct (revenue_trends r) as [|r0 rest] eqn:Rows; [discriminate P|].
  cbn [map idxmax bind] in P.
  set (k := idxmax_from (revenue r0) 0 1 (map revenue rest)) in P.
  destruct (idxmax_from_spec [revenue r0] (map revenue rest) (revenue r0) 0)
    as [K1 [K2 K3]]; try (simpl; lia); try reflexivity.
  { intros j Hj. simpl in Hj. assert (j = 0%nat) by lia. subst j. apply Qle_refl. }
  change (idxmax_from (revenue r0) 0 (List.length [revenue r0]) (map revenue rest))
    with k in K1, K2, K3.
  change ([revenue r0] ++ map revenue rest) with (map revenue (r0 :: rest)) in K1, K2, K3.
  unfold loc in P.
  destruct (nth_error (r0 :: rest) k) as [row|] eqn:N; [|discriminate P].
  inversion P. subst row.
  pose proof (nth_map_revenue _ _ _ N) as Ek.
  exists k. split; [exact N|]. split.
  - intros row Hrow. apply In_nth_error in Hrow. destruct Hrow as [j Hj].
    rewrite <- Ek, <- (nth_map_revenue _ _ _ Hj). apply K2.
    rewrite length_map. apply nth_error_Some. congruence.
  - intros j row Hj Ej.
    rewrite <- Ek, <- (nth_map_revenue _ _ _ Ej). now apply K3.
Qed.

Lemma peak_is_first_maximum_witness :
  exists r, get_revenue_analytics (Some two_days_data) "weekly" = Ok r
    /\ Forall (fun row => revenue row <= revenue (peak_revenue_day (summary r)))
              (revenue_trends r).
Proof.
  run_call.
  match goal with
  | |- Forall _ (revenue_trends ?x) =>
      destruct (peak_is_first_maximum two_days_data "weekly" x) as [i [_ [H _]]];
      [vm_compute; reflexivity|]
  end.
  apply Forall_forall. exact H.
Defined.

(** ** Further properties of the anomaly detector *)

Lemma get_anomaly_metrics_ok (d : Data) :
  get_anomaly_metrics (Some d) = Ok (anomaly_metrics d).
Proof. reflexivity. Qed.

Lemma tail_split {A : Type} (n : nat) (l : list A) :
  l = firstn (List.length l - n) l ++ tail n l.
Proof. unfold tail. symmetry. apply firstn_skipn. Qed.

Lemma tail_length {A : Type} (n : nat) (l : list A) :
  List.length (tail n l) = Nat.min n (List.length l).
Proof. unfold tail. rewrite length_skipn. lia. Qed.


Lemma anomalous_short (txs : list Transaction) :
  (List.length txs < 2)%nat ->
  amount_threshold txs = LNaN /\ anomalous_transactions txs = [].
Proof.
  intros L.
  assert (T : amount_threshold txs = LNaN).
  { unfold amount_threshold.
    rewrite (sample_var_short (map amount txs)) by now rewrite length_map.
    destruct (mean (map amount txs)); reflexivity. }
  split; [exact T|].
  unfold anomalous_transactions. rewrite T.
  clear. induction txs as [|t l IH]; [reflexivity|]. exact IH.
Qed.

(** X6: with fewer than two transactions nothing is flagged: the
    threshold is NaN, the count 0, the mean anomalous amount 0 and the list
    of recent anomalies empty. *)
Theorem no_anomaly_below_two_transactions (d : Data) :
  (List.length (transactions d) < 2)%nat ->
  exists r, get_anomaly_metrics (Some d) = Ok r
    /\ lt_threshold (large_transactions r) = LNaN
    /\ lt_count (large_transactions r) = 0%Z
    /\ lt_total_value (large_transactions r) = 0
    /\ lt_avg_amount (large_transactions r) = Fin 0
    /\ recent_anomalies r = [].
Proof.
  intros L. exists (anomaly_metrics d). split; [reflexivity|].
  destruct (anomalous_short (transactions d) L) as [T A].
  unfold anomaly_metrics.
  cbn [large_transactions lt_threshold lt_count lt_total_value lt_avg_amount
       recent_anomalies].
  rewrite T, A. repeat split.
Qed.

Lemma no_anomaly_below_two_transactions_witness :
  exists r, get_anomaly_metrics (Some (recent_data 0)) = Ok r
    /\ lt_threshold (large_transactions r) = LNaN
    /\ recent_anomalies r = [].
Proof.
  destruct (no_anomaly_below_two_transactions (recent_data 0))
    as [r [E [T [_ [_ [_ R]]]]]]; [simpl; lia|].
  exists r. repeat split; assumption.
Defined.

Lemma unique_constant {K : Type} (eqb : K -> K -> bool) (k : K) (l : list K) :
  (forall x, eqb x x = true) -> l <> [] -> (forall x, In x l -> x = k) ->
  unique eqb l = [k].
Proof.
  intros Rf. induction l as [|x l IH]; [congruence|]. intros _ H.
  assert (x = k) by (apply H; now left). subst x.
  destruct l as [|y l]; [reflexivity|].
  assert (y = k) by (apply H; right; now left). subst y.
  cbn [unique existsb]. rewrite Rf. cbn [orb].
  apply IH; [discriminate|]. intros x Hx. apply H. now right.
Qed.

Lemma daily_counts_one_day (txs : list Transaction) :
  txs <> [] ->
  (forall t1 t2, In t1 txs -> In t2 txs ->
                 date_of (transaction_date t1) = date_of (transaction_date t2)) ->
  exists n, daily_counts txs = [n] /\ (0 <= n)%Z.
Proof.
  intros N Same. destruct txs as [|t0 txs]; [congruence|].
  unfold daily_counts, groupby, group_keys.
  rewrite (unique_constant Z.eqb (date_of (transaction_date t0))).
  - eexists. split; [reflexivity|]. apply len_nonneg.
  - apply Z.eqb_refl.
  - discriminate.
  - intros x Hx. apply in_map_iff in Hx. destruct Hx as [t [<- Ht]].
    apply Same; [exact Ht|now left].
Qed.

(** X7: when all transactions fall on one calendar day (or there is
    none), the daily standard deviation is NaN, so no day is flagged: the
    upper threshold is NaN and the lower threshold 0. *)
Theorem single_day_is_never_anomalous (d : Data) :
  (forall t1 t2, In t1 (transactions d) -> In t2 (transactions d) ->
                 date_of (transaction_date t1) = date_of (transaction_date t2)) ->
  exists r, get_anomaly_metrics (Some d) = Ok r
    /\ dv_anomalous_days (daily_volume_anomalies r) = 0%Z
    /\ dv_upper_threshold (daily_volume_anomalies r) = LNaN
    /\ dv_lower_threshold (daily_volume_anomalies r) = LConst 0.
Proof.
  intros Same. exists (anomaly_metrics d). split; [reflexivity|].
  unfold anomaly_metrics.
  cbn [daily_volume_anomalies dv_anomalous_days dv_upper_threshold dv_lower_threshold].
  destruct (transactions d) as [|t0 txs] eqn:T.
  - repeat split.
  - destruct (daily_counts_one_day (t0 :: txs)) as [n [-> Hn]];
      [discriminate|exact Same|].
    cbn [map mean sample_var sigma_level max0 lt_level gt_level filter orb].
    assert (Q : Qle_bool 0 (inject_Z n) = true).
    { apply Qle_bool_iff. change 0 with (inject_Z 0). now rewrite <- Zle_Qle. }
    rewrite Q. repeat split.
Qed.

Lemma single_day_is_never_anomalous_witness :
  exists r, get_anomaly_metrics (Some (recent_data 0)) = Ok r
    /\ dv_anomalous_days (daily_volume_anomalies r) = 0%Z.
Proof.
  destruct (single_day_is_never_anomalous (recent_data 0)) as [r [E [A _]]].
  - intros t1 t2 [<-|[]] [<-|[]]. reflexivity.
  - exists r. split; assumption.
Defined.

(** ** Further properties of the churn analyzer *)

Lemma days_between_le (now1 now2 t : Z) :
  (now1 <= now2)%Z -> (days_between now1 t <= days_between now2 t)%Z.
Proof.
  intros L. unfold days_between, seconds_per_day.
  apply Z.div_le_mono; lia.
Qed.

Lemma len_filter_impl {A : Type} (f g : A -> bool) (l : list A) :
  (forall x, In x l -> f x = true -> g x = true) ->
  (len (filter f l) <= len (filter g l))%Z.
Proof.
  intros H. unfold len. apply inj_le.
  induction l as [|x l IH]; simpl; [lia|].
  assert (IH' : (List.length (filter f l) <= List.length (filter g l))%nat).
  { apply IH. intros y Hy. apply H. now right. }
  specialize (H x (or_introl eq_refl)).
  destruct (f x), (g x); simpl; try lia;
    try (specialize (H eq_refl); discriminate H).
Qed.

(** X8: the number of churned customers never decreases as the reference
    time advances, and it never exceeds the number of distinct customers
    in Transactions nor the number of transactions. *)
Theorem churned_grows_with_time (d : Data) (now1 now2 : timestamp) :
  (now1 <= now2)%Z ->
  (churned_customers (churn_metrics d now1)
   <= churned_customers (churn_metrics d now2))%Z
  /\ (churned_customers (churn_metrics d now2)
      + at_risk_customers (churn_metrics d now2)
      <= len (churn_ids (transactions d)))%Z
  /\ (len (churn_ids (transactions d)) <= len (transactions d))%Z.
Proof.
  intros L. unfold churn_metrics. cbn [churned_customers at_risk_customers].
  rewrite !days_since_last_map. split; [|split].
  - rewrite !len_filter_map. apply len_filter_impl.
    intros c _. unfold is_churned, days_since_last. rewrite !Z.ltb_lt.
    intros H. eapply Z.lt_le_trans; [exact H|]. now apply days_between_le.
  - pose proof (len_filter_disjoint is_churned is_at_risk
                  (map (days_since_last (transactions d) now2)
                       (churn_ids (transactions d)))
                  churned_at_risk_disjoint) as D.
    now rewrite len_map in D.
  - rewrite churn_ids_keys. unfold group_keys, len. apply inj_le.
    rewrite (Permutation_length (sort_perm String.leb _)).
    rewrite <- (length_map customer_id (transactions d)).
    apply unique_length_le.
Qed.

Lemma churned_grows_with_time_witness :
  (churned_customers (churn_metrics (at_risk_data 0) 0)
   <= churned_customers (churn_metrics (at_risk_data 0) (days 30)))%Z.
Proof.
  apply (churned_grows_with_time (at_risk_data 0) 0 (days 30)).
  vm_compute. discriminate.
Defined.

(** ** Further properties of the segmentation engine *)

Lemma get_high_value_customers_ok (d : Data) :
  get_high_value_customers (Some d) = Ok (segment_metrics d).
Proof. reflexivity. Qed.

Lemma len_app {A : Type} (l1 l2 : list A) : len (l1 ++ l2) = (len l1 + len l2)%Z.
Proof. unfold len. rewrite length_app. lia. Qed.

Lemma len_filter_split {A : Type} (f g h : A -> bool) (l : list A) :
  (forall x, In x l -> f x = g x || h x) ->
  (forall x, In x l -> g x && h x = false) ->
  len (filter f l) = (len (filter g l) + len (filter h l))%Z.
Proof.
  intros U D. unfold len. rewrite <- Nat2Z.inj_add. f_equal.
  induction l as [|x l IH]; [reflexivity|]. simpl.
  rewrite (U x) by now left.
  pose proof (D x (or_introl eq_refl)) as Dx.
  assert (IH' : List.length (filter f l)
                = (List.length (filter g l) + List.length (filter h l))%nat).
  { apply IH; intros y Hy; [apply U|apply D]; now right. }
  destruct (g x), (h x); simpl in *; try discriminate; lia.
Qed.

Lemma sort_by_spend_desc_perm (cs : list Profile) :
  Permutation (sort_by_spend_desc cs) cs.
Proof. apply sort_perm. Qed.

Lemma quantile_80 : (8 # 10) == (80 # 100).
Proof. reflexivity. Qed.

Lemma interpolate_comp (s : list Q) (h1 h2 : Q) :
  h1 == h2 -> interpolate s h1 == interpolate s h2.
Proof.
  intros E. unfold interpolate. rewrite (Qfloor_comp _ _ E). now rewrite E.
Qed.

Lemma quantile_comp (xs : list Q) (q1 q2 : Q) (v : Q) :
  q1 == q2 -> quantile xs q2 = Fin v -> exists v', quantile xs q1 = Fin v' /\ v' == v.
Proof.
  intros E. destruct xs as [|x xs]; [discriminate|].
  rewrite !quantile_interpolate by discriminate.
  intros H. inversion H. eexists. split; [reflexivity|].
  apply interpolate_comp. now rewrite E.
Qed.

(** X9: the high-value customers are exactly the Platinum and Gold tiers
    together: their number is the sum of the sizes of these two tiers. *)
Theorem high_value_is_platinum_and_gold (d : Data) :
  let cs := customer_spending (transactions d) in
  exists r, get_high_value_customers (Some d) = Ok r
    /\ total_high_value_customers r = (len (tier cs 0) + len (tier cs 1))%Z
    /\ (forall p, In p (high_value cs) <-> In p (tier cs 0) \/ In p (tier cs 1)).
Proof.
  intros cs. exists (segment_metrics d). split; [reflexivity|].
  unfold segment_metrics. cbn [total_high_value_customers]. fold cs.
  fold (high_value cs).
  assert (L : len (sort_by_spend_desc (high_value cs)) = len (high_value cs)).
  { unfold len. f_equal. apply Permutation_length, sort_by_spend_desc_perm. }
  rewrite L.
  destruct cs as [|c cs'] eqn:C.
  { split; [reflexivity|]. intros p. rewrite !tier_nil. simpl. tauto. }
  rewrite <- C.
  assert (N : cs <> []) by (rewrite C; discriminate).
  destruct (tier_spec cs c N) as
    [p40 [p60 [p80 [p95 [_ [_ [E80 [E95 [_ [_ [L3 _]]]]]]]]]]].
  destruct (quantile_comp (map total_spent cs) (8 # 10) (80 # 100) p80 quantile_80 E80)
    as [v [Ev Vv]].
  assert (M : forall p, In p (high_value cs) <-> In p (tier cs 0) \/ In p (tier cs 1)).
  { intros p. unfold high_value, tier, tier_percentile, segment_customers.
    cbn [nth spending_percentiles]. rewrite !filter_In, Ev, E80, E95.
    rewrite andb_true_iff, !geb_Fin_Fin, ltb_Fin_Fin. rewrite Vv.
    split.
    - intros [I G]. destruct (Qlt_le_dec (total_spent p) p95); [right|left]; tauto.
    - intros [[I G]|[I [G _]]]; split; auto. Lqa.lra. }
  split; [|exact M].
  unfold high_value, tier, tier_percentile, segment_customers.
  cbn [nth spending_percentiles]. rewrite Ev, E80, E95.
  apply len_filter_split.
  - intros p _.
    destruct (Float.geb (Fin (total_spent p)) (Fin v)) eqn:G1;
      destruct (Float.geb (Fin (total_spent p)) (Fin p95)) eqn:G2;
      destruct (Float.geb (Fin (total_spent p)) (Fin p80)) eqn:G3;
      destruct (Float.ltb (Fin (total_spent p)) (Fin p95)) eqn:G4;
      try reflexivity; exfalso;
      rewrite <- ?not_true_iff_false in *;
      rewrite ?geb_Fin_Fin, ?ltb_Fin_Fin in *;
      rewrite ?Vv in *;
      try (apply G1; Lqa.lra); try (apply G3; Lqa.lra);
      try (apply G2; apply Qnot_lt_le; exact G4); try Lqa.lra.
  - intros p _.
    destruct (Float.geb (Fin (total_spent p)) (Fin p95)) eqn:G2;
      destruct (Float.ltb (Fin (total_spent p)) (Fin p95)) eqn:G4;
      rewrite ?andb_false_r; try reflexivity.
    exfalso. rewrite geb_Fin_Fin in G2. rewrite ltb_Fin_Fin in G4. Lqa.lra.
Qed.

(** X10: the customer counts of the reported segments add up to the
    number of profiles whose spend is at or above the 40th percentile; the
    profiles below it are counted in no segment. *)
Theorem segment_counts_total (txs : list Transaction) :
  let cs := customer_spending txs in
  Zsum (map customer_count (customer_segments cs))
  = len (filter (fun p => Float.geb (Fin (total_spent p))
                                    (quantile (map total_spent cs) (40 # 100))) cs)
  /\ (Zsum (map customer_count (customer_segments cs)) <= len cs)%Z.
Proof.
  intros cs.
  assert (S : Zsum (map customer_count (customer_segments cs))
              = (len (tier cs 0) + len (tier cs 1) + len (tier cs 2) + len (tier cs 3))%Z).
  { rewrite customer_segments_unfold. cbn [flat_map].
    rewrite !map_app, app_nil_r.
    assert (F : forall i,
               Zsum (map customer_count
                         (if (0 <? len (tier cs i))%Z
                          then [segment_entry cs (tier_name i) (tier cs i)] else []))
               = len (tier cs i)).
    { intros i. destruct (Z.ltb_spec 0 (len (tier cs i))) as [P|P]; simpl.
      - lia.
      - pose proof (len_nonneg (tier cs i)). lia. }
    assert (A : forall l1 l2, Zsum (l1 ++ l2) = (Zsum l1 + Zsum l2)%Z).
    { intros l1 l2. induction l1 as [|x l1 IH]; simpl; [reflexivity|].
      rewrite IH. lia. }
    rewrite !A, !F. lia. }
  assert (E : (len (tier cs 0) + len (tier cs 1) + len (tier cs 2) + len (tier cs 3))%Z
              = len (filter (fun p => Float.geb (Fin (total_spent p))
                                        (quantile (map total_spent cs) (40 # 100))) cs)).
  { destruct cs as [|c cs'] eqn:C; [reflexivity|]. rewrite <- C.
    assert (N : cs <> []) by (rewrite C; discriminate).
    destruct (tier_spec cs c N) as
      [p40 [p60 [p80 [p95 [E40 [E60 [E80 [E95 [L1 [L2 [L3 _]]]]]]]]]]].
    unfold tier, tier_percentile, segment_customers.
    cbn [nth spending_percentiles]. rewrite E40, E60, E80, E95.
    set (x := fun p : Profile => total_spent p).
    assert (Sp : forall lo hi, lo <= hi ->
               len (filter (fun p => Float.geb (Fin (x p)) (Fin lo)) cs)
               = (len (filter (fun p => Float.geb (Fin (x p)) (Fin hi)) cs)
                  + len (filter (fun p => Float.geb (Fin (x p)) (Fin lo)
                                          && Float.ltb (Fin (x p)) (Fin hi)) cs))%Z).
    { intros lo hi Hl. apply len_filter_split.
      - intros p _.
        destruct (Float.geb (Fin (x p)) (Fin lo)) eqn:G1;
          destruct (Float.geb (Fin (x p)) (Fin hi)) eqn:G2;
          destruct (Float.ltb (Fin (x p)) (Fin hi)) eqn:G4;
          try reflexivity; exfalso;
          rewrite <- ?not_true_iff_false in *;
          rewrite ?geb_Fin_Fin, ?ltb_Fin_Fin in *;
          try (apply G1; Lqa.lra);
          try (apply G2; apply Qnot_lt_le; exact G4); try Lqa.lra.
      - intros p _.
        destruct (Float.geb (Fin (x p)) (Fin hi)) eqn:G2;
          destruct (Float.ltb (Fin (x p)) (Fin hi)) eqn:G4;
          rewrite ?andb_false_r; try reflexivity.
        exfalso. rewrite geb_Fin_Fin in G2. rewrite ltb_Fin_Fin in G4. Lqa.lra. }
    rewrite (Sp p40 p60 L1), (Sp p60 p80 L2), (Sp p80 p95 L3). lia. }
  split; [now rewrite S, E|].
  rewrite S, E. apply len_filter_le.
Qed.

Lemma firstn_sorted {A : Type} (R : A -> A -> Prop) (n : nat) (l : list A) :
  StronglySorted R l -> StronglySorted R (firstn n l).
Proof.
  intros H. revert n. induction H as [|x l Hs IH Hx]; intros [|n]; simpl;
    try constructor.
  - apply IH.
  - rewrite Forall_forall in *. intros y Hy. apply Hx.
    rewrite <- (firstn_skipn n l). apply in_or_app. now left.
Qed.

(** X11: top_10_customers holds at most ten profiles, each of them a
    high-value profile, in descending order of total_spent; with at most
    ten high-value profiles it holds all of them. *)
Theorem top_10_customers_sorted (d : Data) :
  let cs := customer_spending (transactions d) in
  exists r, get_high_value_customers (Some d) = Ok r
    /\ (List.length (top_10_customers r) <= 10)%nat
    /\ (forall p, In p (top_10_customers r) -> In p (high_value cs))
    /\ StronglySorted (fun a b => total_spent b <= total_spent a) (top_10_customers r)
    /\ ((List.length (high_value cs) <= 10)%nat ->
        Permutation (top_10_customers r) (high_value cs)).
Proof.
  intros cs. exists (segment_metrics d). split; [reflexivity|].
  unfold segment_metrics. cbn [top_10_customers]. fold cs. fold (high_value cs).
  split; [rewrite length_firstn; lia|]. split; [|split].
  - intros p Hp.
    assert (I : In p (sort_by_spend_desc (high_value cs))).
    { rewrite <- (firstn_skipn 10). apply in_or_app. now left. }
    eapply Permutation_in; [apply sort_by_spend_desc_perm|exact I].
  - apply firstn_sorted. unfold sort_by_spend_desc.
    apply (sort_sorted_gen _ (fun a b => total_spent b <= total_spent a)).
    + intros a b H. now apply Qle_bool_iff.
    + intros a b H. now apply Qle_bool_false.
    + intros a b c H1 H2. now apply Qle_trans with (total_spent b).
  - intros L. rewrite firstn_all2; [apply sort_by_spend_desc_perm|].
    rewrite (Permutation_length (sort_by_spend_desc_perm _)). exact L.
Qed.

Lemma top_10_customers_sorted_witness :
  exists r, get_high_value_customers (Some (recent_data 0)) = Ok r
    /\ Permutation (top_10_customers r)
                   (high_value (customer_spending (transactions (recent_data 0)))).
Proof.
  destruct (top_10_customers_sorted (recent_data 0)) as [r [E [_ [_ [_ H]]]]].
  exists r. split; [exact E|]. apply H. vm_compute. lia.
Defined.

Lemma min_date_lower (rows : list Transaction) (t : Transaction) :
  In t rows -> (min_date rows <= transaction_date t)%Z.
Proof.
  unfold min_date, Zmin_list. destruct rows as [|r rows]; [intros []|]. simpl.
  assert (G : forall l d, (fold_left Z.min l d <= d)%Z
                          /\ forall x, In x l -> (fold_left Z.min l d <= x)%Z).
  { induction l as [|y l IH]; intros d; simpl; [split; [lia|intros x []]|].
    destruct (IH (Z.min d y)) as [I1 I2]. split; [lia|].
    intros x [->|Hx]; [lia|auto]. }
  destruct (G (map transaction_date rows) (transaction_date r)) as [G1 G2].
  intros [->|H]; [exact G1|]. apply G2. now apply in_map.
Qed.

Lemma customer_spending_ids (txs : list Transaction) :
  map p_customer_id (customer_spending txs) = churn_ids txs.
Proof.
  unfold customer_spending, churn_ids, last_transaction.
  rewrite !map_map. reflexivity.
Qed.

Lemma customer_spending_counts (txs : list Transaction) :
  Zsum (map transaction_count (customer_spending txs)) = len txs
  /\ Forall (fun p => (1 <= transaction_count p)%Z
                      /\ (first_purchase p <= last_purchase p)%Z)
            (customer_spending txs).
Proof.
  split.
  - unfold customer_spending. rewrite map_map. cbn [transaction_count].
    rewrite <- (count_groupby String.eqb String.eqb_eq customer_id String.leb txs).
    f_equal. apply map_ext. intros g. apply len_map.
  - apply Forall_forall. intros p Hp.
    unfold customer_spending in Hp. apply in_map_iff in Hp.
    destruct Hp as [g [<- Hg]]. cbn [transaction_count first_purchase last_purchase].
    apply (groupby_nonempty String.leb String.eqb String.eqb_eq) in Hg.
    destruct (snd g) as [|t rows] eqn:G; [congruence|].
    split.
    + rewrite len_map. unfold len. simpl List.length. lia.
    + apply Z.le_trans with (transaction_date t).
      * apply min_date_lower. now left.
      * apply max_date_upper. now left.
Qed.

(** X12: the spend profiles hold one profile per distinct customer id of
    Transactions; every profile counts at least one transaction, the counts
    add up to the number of transactions, and first_purchase is not after
    last_purchase. *)
Theorem customer_spending_profiles (txs : list Transaction) :
  let cs := customer_spending txs in
  NoDup (map p_customer_id cs)
  /\ (forall c, In c (map p_customer_id cs) <-> exists t, In t txs /\ customer_id t = c)
  /\ Zsum (map transaction_count cs) = len txs
  /\ Forall (fun p => (1 <= transaction_count p)%Z
                      /\ (first_purchase p <= last_purchase p)%Z) cs.
Proof.
  intros cs. unfold cs. rewrite customer_spending_ids.
  split; [apply churn_ids_NoDup|]. split; [apply churn_ids_In|].
  apply customer_spending_counts.
Qed.

Lemma Qsum_between (l : list Q) (m M : Q) :
  (forall x, In x l -> m <= x /\ x <= M) ->
  inject_Z (len l) * m <= Qsum l /\ Qsum l <= inject_Z (len l) * M.
Proof.
  induction l as [|x l IH]; intros H.
  - rewrite Qsum_nil. change (inject_Z (len (@nil Q))) with 0.
    rewrite !Qmult_0_l. split; apply Qle_refl.
  - rewrite Qsum_cons.
    assert (E : inject_Z (len (x :: l)) == inject_Z (len l) + 1).
    { unfold len. simpl List.length. rewrite Nat2Z.inj_succ, <- Z.add_1_r.
      now rewrite inject_Z_plus. }
    rewrite E.
    destruct (H x (or_introl eq_refl)) as [H1 H2].
    destruct IH as [I1 I2]; [intros y Hy; apply H; now right|].
    split; Lqa.lra.
Qed.

Lemma mean_between (l : list Q) (m M : Q) :
  l <> [] -> (forall x, In x l -> m <= x /\ x <= M) ->
  m <= Qsum l / inject_Z (len l) /\ Qsum l / inject_Z (len l) <= M.
Proof.
  intros N H. destruct (Qsum_between l m M H) as [B1 B2].
  assert (P : 0 < inject_Z (len l)).
  { change 0 with (inject_Z 0). rewrite <- Zlt_Qlt. unfold len.
    destruct l; [congruence|simpl List.length; lia]. }
  split.
  - apply Qle_shift_div_l; [exact P|]. now rewrite Qmult_comm.
  - apply Qle_shift_div_r; [exact P|]. now rewrite Qmult_comm.
Qed.


(** ** Customer analytics *)

Lemma fround2_leb (a b : Q) :
  a <= b -> Float.leb (fround2 (Fin a)) (fround2 (Fin b)) = true.
Proof. intros H. simpl. apply Qle_bool_iff. now apply round2_le. Qed.

Lemma len_filter_cover {A : Type} (g h : A -> bool) (l : list A) :
  (forall x, In x l -> g x || h x = true) ->
  (forall x, In x l -> g x && h x = false) ->
  len l = (len (filter g l) + len (filter h l))%Z.
Proof.
  intros U D. unfold len. rewrite <- Nat2Z.inj_add. f_equal.
  induction l as [|x l IH]; [reflexivity|]. simpl.
  pose proof (U x (or_introl eq_refl)) as Ux.
  pose proof (D x (or_introl eq_refl)) as Dx.
  assert (IH' : List.length l
                = (List.length (filter g l) + List.length (filter h l))%nat).
  { apply IH; intros y Hy; [apply U|apply D]; now right. }
  destruct (g x), (h x); simpl in *; try discriminate; lia.
Qed.

(** X14: every customer with a purchase is either a one-time buyer or a
    repeat customer: the two counts add up to customers_with_purchases,
    which is at most the number of transactions, and at most
    total_customers when no transaction has an orphan customer id. *)
Theorem buyers_partition (d : Data) :
  exists r, get_customer_analytics (Some d) = Ok r
    /\ (one_time_buyers (purchase_frequency r) + repeat_customers (purchase_frequency r)
        = customers_with_purchases r)%Z
    /\ (customers_with_purchases r <= len (transactions d))%Z
    /\ (no_orphans d -> (customers_with_purchases r <= ca_total_customers r)%Z).
Proof.
  exists (customer_analytics d). split; [reflexivity|].
  unfold customer_analytics.
  cbn [purchase_frequency one_time_buyers repeat_customers customers_with_purchases
       ca_total_customers].
  set (cs := customer_spending (transactions d)).
  destruct (customer_spending_counts (transactions d)) as [S F].
  fold cs in S, F.
  assert (I : len cs = len (churn_ids (transactions d))).
  { unfold cs, customer_spending, churn_ids, last_transaction. now rewrite !len_map. }
  split; [|split].
  - rewrite <- (len_map transaction_count cs). symmetry.
    apply len_filter_cover.
    + intros c Hc. apply in_map_iff in Hc. destruct Hc as [p [<- Hp]].
      rewrite Forall_forall in F. destruct (F p Hp) as [F1 _]. lia.
    + intros x _. lia.
  - rewrite I, churn_ids_keys. unfold group_keys, len. apply inj_le.
    rewrite (Permutation_length (sort_perm String.leb _)).
    rewrite <- (length_map customer_id (transactions d)).
    apply unique_length_le.
  - intros NO. rewrite I. now apply churn_ids_le_customers.
Qed.

Lemma buyers_partition_witness :
  exists r, get_customer_analytics (Some (recent_data 0)) = Ok r
    /\ (customers_with_purchases r <= ca_total_customers r)%Z.
Proof.
  destruct (buyers_partition (recent_data 0)) as [r [E [_ [_ H]]]].
  exists r. split; [exact E|]. apply H.
  intros t [<-|[]]. now left.
Defined.

(** X15: with at least one transaction the reported lifetime values are
    ordered: median <= percentile_75 <= percentile_95; without any they
    are all NaN. *)
Theorem lifetime_value_ordered (d : Data) :
  exists r, get_customer_analytics (Some d) = Ok r
    /\ (transactions d <> [] ->
        Float.leb (clv_median (customer_lifetime_value r))
                  (clv_percentile_75 (customer_lifetime_value r)) = true
        /\ Float.leb (clv_percentile_75 (customer_lifetime_value r))
                     (clv_percentile_95 (customer_lifetime_value r)) = true)
    /\ (transactions d = [] ->
        clv_mean (customer_lifetime_value r) = NaN
        /\ clv_median (customer_lifetime_value r) = NaN
        /\ clv_percentile_75 (customer_lifetime_value r) = NaN
        /\ clv_percentile_95 (customer_lifetime_value r) = NaN).
Proof.
  exists (customer_analytics d). split; [reflexivity|].
  unfold customer_analytics.
  cbn [customer_lifetime_value clv_mean clv_median clv_percentile_75 clv_percentile_95].
  split.
  - intros N.
    assert (N' : map total_spent (customer_spending (transactions d)) <> []).
    { unfold customer_spending. rewrite map_map. intros E. apply map_eq_nil in E.
      apply N. exact (proj1 (groupby_nil String.leb String.eqb String.eqb_eq _ _) E). }
    unfold median.
    destruct (quantile_le _ (1 # 2) (75 # 100) N') as [a [b [Ea [Eb L1]]]];
      try (apply Qle_bool_imp_le; reflexivity).
    destruct (quantile_le _ (75 # 100) (95 # 100) N') as [b' [c [Eb' [Ec L2]]]];
      try (apply Qle_bool_imp_le; reflexivity).
    rewrite Eb in Eb'. inversion Eb'. subst b'.
    rewrite Ea, Eb, Ec. split; now apply fround2_leb.
  - intros ->. repeat split.
Qed.

Lemma lifetime_value_ordered_witness :
  exists r, get_customer_analytics (Some (recent_data 0)) = Ok r
    /\ Float.leb (clv_percentile_75 (customer_lifetime_value r))
                 (clv_percentile_95 (customer_lifetime_value r)) = true.
Proof.
  destruct (lifetime_value_ordered (recent_data 0)) as [r [E [H _]]].
  exists r. split; [exact E|]. apply H. discriminate.
Defined.

Lemma skipn_sorted {A : Type} (R : A -> A -> Prop) (n : nat) (l : list A) :
  StronglySorted R l -> StronglySorted R (skipn n l).
Proof.
  intros H. revert n. induction H as [|x l Hs IH Hx]; intros [|n]; simpl;
    try constructor; auto.
Qed.

Lemma Zsum_app (l1 l2 : list Z) : Zsum (l1 ++ l2) = (Zsum l1 + Zsum l2)%Z.
Proof. induction l1 as [|x l1 IH]; simpl; [reflexivity|]. rewrite IH. lia. Qed.

Lemma Zsum_nonneg (l : list Z) : Forall (fun x => (0 <= x)%Z) l -> (0 <= Zsum l)%Z.
Proof. induction 1; simpl; lia. Qed.

(** X16: customer_acquisition lists at most twelve months in strictly
    ascending order, each with at least one registration; the counts add
    up to at most total_customers, and to exactly total_customers when the
    registrations span at most twelve distinct months. *)
Theorem acquisition_months (d : Data) :
  exists r, get_customer_analytics (Some d) = Ok r
    /\ (List.length (customer_acquisition r) <= 12)%nat
    /\ StronglySorted Z.lt (map fst (customer_acquisition r))
    /\ Forall (fun m => (1 <= snd m)%Z) (customer_acquisition r)
    /\ (Zsum (map snd (customer_acquisition r)) <= ca_total_customers r)%Z
    /\ ((List.length (unique Z.eqb (map (fun c => month_of (registration_date c))
                                        (customers d))) <= 12)%nat ->
        Zsum (map snd (customer_acquisition r)) = ca_total_customers r).
Proof.
  exists (customer_analytics d). split; [reflexivity|].
  unfold customer_analytics. cbn [customer_acquisition ca_total_customers].
  unfold acquisition.
  set (key := fun c : Customer => month_of (registration_date c)).
  set (rows := map (fun g => (fst g, len (snd g)))
                   (groupby Z.leb Z.eqb key (customers d))).
  assert (K : map fst rows = group_keys Z.leb Z.eqb (map key (customers d))).
  { unfold rows. rewrite map_map. cbn [fst].
    apply (groupby_keys Z.leb Z.eqb key). }
  assert (S : Zsum (map snd rows) = len (customers d)).
  { unfold rows. rewrite map_map. cbn [snd].
    apply (count_groupby Z.eqb Z.eqb_eq key Z.leb). }
  assert (P : Forall (fun m => (1 <= snd m)%Z) rows).
  { unfold rows. apply Forall_forall. intros m Hm.
    apply in_map_iff in Hm. destruct Hm as [g [<- Hg]]. cbn [snd].
    apply (groupby_nonempty Z.leb Z.eqb Z.eqb_eq) in Hg.
    destruct (snd g); [congruence|]. unfold len. simpl List.length. lia. }
  assert (Sp : rows = firstn (List.length rows - 12) rows ++ tail 12 rows)
    by apply tail_split.
  assert (Pt : Forall (fun m => (1 <= snd m)%Z) (tail 12 rows)).
  { rewrite Forall_forall in *. intros m Hm. apply P. rewrite Sp.
    apply in_or_app. now right. }
  split; [rewrite tail_length; lia|]. split; [|split; [exact Pt|split]].
  - unfold tail. rewrite <- skipn_map, K. apply skipn_sorted, group_keys_ascending.
  - rewrite <- S. rewrite Sp at 2. rewrite map_app, Zsum_app.
    assert (0 <= Zsum (map snd (firstn (List.length rows - 12) rows)))%Z.
    { apply Zsum_nonneg. apply Forall_forall. intros x Hx.
      apply in_map_iff in Hx. destruct Hx as [m [<- Hm]].
      rewrite Forall_forall in P. assert (In m rows).
      { rewrite <- (firstn_skipn (List.length rows - 12) rows).
        apply in_or_app. now left. }
      specialize (P m H). lia. }
    lia.
  - intros L. rewrite <- S. f_equal. f_equal.
    unfold tail.
    assert (E : List.length rows
                = List.length (unique Z.eqb (map key (customers d)))).
    { rewrite <- (length_map fst rows), K. unfold group_keys.
      apply Permutation_length, sort_perm. }
    replace (List.length rows - 12)%nat with 0%nat by lia. reflexivity.
Qed.

Lemma acquisition_months_witness :
  exists r, get_customer_analytics (Some (idle_customer_data 0)) = Ok r
    /\ Zsum (map snd (customer_acquisition r)) = ca_total_customers r.
Proof.
  destruct (acquisition_months (idle_customer_data 0)) as [r [E [_ [_ [_ [_ H]]]]]].
  exists r. split; [exact E|]. apply H. vm_compute. lia.
Defined.

(** ** Loading the data *)

Section LoadDataFacts.

Variable Frame : Type.
Variable exists_file : string -> bool.
Variable read_csv : string -> option Frame.
Variable to_datetime : string -> Frame -> option Frame.

Abbreviation read := (read_files Frame exists_file read_csv).
Abbreviation convert := (convert_column Frame to_datetime).
Abbreviation load := (load_data Frame exists_file read_csv to_datetime).
Abbreviation has_key := (has_key Frame).

Lemma dict_get_set (k k' : string) (v : Frame) (m : datasets_t Frame) :
  dict_get Frame k (dict_set Frame k' v m)
  = if (k =? k')%string then Some v else dict_get Frame k m.
Proof.
  induction m as [|[k0 v0] m IH]; simpl.
  - destruct (String.eqb_spec k k'); reflexivity.
  - destruct (String.eqb_spec k' k0) as [->|N]; simpl.
    + destruct (String.eqb_spec k k0); reflexivity.
    + destruct (String.eqb_spec k k0) as [->|N'].
      * destruct (String.eqb_spec k0 k'); [congruence|reflexivity].
      * exact IH.
Qed.

(** A key of the dictionary built by the loop is there from the start or
    names a file that exists. *)
Lemma read_files_keys (files : list string) (m m' : datasets_t Frame) (k : string) :
  read files m = Some m' -> has_key k m' ->
  has_key k m
  \/ exists file, In file files /\ remove_csv file = k
                  /\ exists_file (data_path ++ file) = true.
Proof.
  revert m. induction files as [|file files IH]; intros m E H; cbn [read_files] in E.
  - inversion E. subst. now left.
  - destruct (exists_file (data_path ++ file)) eqn:X.
    + destruct (read_csv (data_path ++ file)) as [df|]; [|discriminate].
      destruct (IH _ E H) as [H'|[f [I [R Xf]]]].
      * unfold has_key in H'. rewrite dict_get_set in H'.
        destruct (String.eqb_spec k (remove_csv file)) as [->|N].
        -- right. exists file. split; [now left|]. split; [reflexivity|exact X].
        -- now left.
      * right. exists f. split; [now right|]. split; assumption.
    + destruct (IH _ E H) as [H'|[f [I [R Xf]]]]; [now left|].
      right. exists f. split; [now right|]. split; assumption.
Qed.

Lemma convert_column_keys (name column k : string) (m m' : datasets_t Frame) :
  convert name column m = Some m' ->
  has_key name m /\ (has_key k m' <-> has_key k m).
Proof.
  unfold convert_column, has_key.
  destruct (dict_get Frame name m) as [df|] eqn:G; [|discriminate].
  destruct (to_datetime column df) as [df'|]; [|discriminate].
  intros E. inversion E. subst m'. split; [discriminate|].
  rewrite dict_get_set.
  destruct (String.eqb_spec k name) as [->|N]; [|tauto].
  rewrite G. split; discriminate.
Qed.

(** X17: [load_data] returns a dictionary only if both customers.csv and
    transactions.csv exist, and the dictionary then has the keys
    'customers' and 'transactions'; the events and products files are
    optional. *)
Theorem load_data_requires_both (datasets : datasets_t Frame) :
  load_data Frame exists_file read_csv to_datetime = Some datasets ->
  exists_file "../data/raw/customers.csv" = true
  /\ exists_file "../data/raw/transactions.csv" = true
  /\ has_key "customers" datasets
  /\ has_key "transactions" datasets.
Proof.
  unfold load_data.
  destruct (read csv_files []) as [m|] eqn:R; [|discriminate].
  destruct m as [|kv m]; [discriminate|].
  set (m0 := kv :: m) in *.
  destruct (convert "transactions" "transaction_date" m0) as [m1|] eqn:C1;
    [|discriminate].
  intros C2.
  destruct (convert_column_keys _ _ "customers" _ _ C1) as [T0 K1].
  destruct (convert_column_keys _ _ "transactions" _ _ C2) as [Cu1 K2].
  assert (Cu0 : has_key "customers" m0) by now apply K1.
  assert (F : forall k, has_key k m0 ->
                        exists file, In file csv_files /\ remove_csv file = k
                                     /\ exists_file (data_path ++ file) = true).
  { intros k H. destruct (read_files_keys _ _ _ k R H) as [H'|H']; [|exact H'].
    exfalso. now apply H'. }
  split; [|split; [|split]].
  - destruct (F _ Cu0) as [f [[<-|[<-|[<-|[<-|[]]]]] [E X]]];
      try discriminate E. exact X.
  - destruct (F _ T0) as [f [[<-|[<-|[<-|[<-|[]]]]] [E X]]];
      try discriminate E. exact X.
  - destruct (convert_column_keys _ _ "customers" _ _ C2) as [_ K3]. now apply K3.
  - apply K2. destruct (convert_column_keys _ _ "transactions" _ _ C1) as [_ K4].
    now apply K4.
Qed.

(** X18: when customers.csv and transactions.csv exist and neither reader
    raises, [load_data] returns a dictionary, whether or not the events and
    products files exist. *)
Theorem load_data_succeeds :
  exists_file "../data/raw/customers.csv" = true ->
  exists_file "../data/raw/transactions.csv" = true ->
  (forall path, exists_file path = true -> read_csv path <> None) ->
  (forall column df, to_datetime column df <> None) ->
  exists datasets,
    load_data Frame exists_file read_csv to_datetime = Some datasets.
Proof.
  intros Xc Xt Rd Cv.
  unfold load_data, csv_files. cbn [read_files].
  change (data_path ++ "customers.csv")%string with "../data/raw/customers.csv"%string.
  change (data_path ++ "transactions.csv")%string with "../data/raw/transactions.csv"%string.
  rewrite Xc, Xt.
  destruct (read_csv "../data/raw/customers.csv") as [c|] eqn:Rc;
    [|exfalso; now apply (Rd _ Xc)].
  destruct (read_csv "../data/raw/transactions.csv") as [t|] eqn:Rt;
    [|exfalso; now apply (Rd _ Xt)].
  assert (G : forall m,
             dict_get Frame "customers" m <> None ->
             dict_get Frame "transactions" m <> None ->
             exists datasets,
               match m with
               | [] => None
               | _ :: _ =>
                   match convert "transactions" "transaction_date" m with
                   | Some m1 => convert "customers" "registration_date" m1
                   | None => None
                   end
               end = Some datasets).
  { intros m Hc Ht. destruct m as [|kv m]; [now elim Hc|].
    set (m0 := kv :: m) in *. unfold convert_column.
    destruct (dict_get Frame "transactions" m0) as [dt|]; [|now elim Ht].
    destruct (to_datetime "transaction_date" dt) as [dt'|] eqn:C1;
      [|exfalso; now apply (Cv _ _ C1)].
    rewrite dict_get_set. cbn [String.eqb Ascii.eqb Bool.eqb].
    destruct (dict_get Frame "customers" m0) as [dc|]; [|now elim Hc].
    destruct (to_datetime "registration_date" dc) as [dc'|] eqn:C2;
      [|exfalso; now apply (Cv _ _ C2)].
    eexists. reflexivity. }
  assert (K : forall (m : datasets_t Frame) k v k',
             dict_get Frame k m <> None -> dict_get Frame k (dict_set Frame k' v m) <> None).
  { intros m k v k' H. rewrite dict_get_set. destruct (k =? k')%string; [discriminate|exact H]. }
  assert (B : forall m, m = dict_set Frame "transactions" t
                              (dict_set Frame "customers" c []) ->
                        dict_get Frame "customers" m <> None
                        /\ dict_get Frame "transactions" m <> None).
  { intros m ->. split; discriminate. }
  destruct (B _ eq_refl) as [Bc Bt].
  cbn [remove_csv].
  destruct (exists_file (data_path ++ "events.csv")) eqn:Xe;
    [destruct (read_csv (data_path ++ "events.csv")) as [e|] eqn:Re;
     [|exfalso; now apply (Rd _ Xe)]|];
    (destruct (exists_file (data_path ++ "products.csv")) eqn:Xp;
     [destruct (read_csv (data_path ++ "products.csv")) as [p|] eqn:Rp;
      [|exfalso; now apply (Rd _ Xp)]|]);
    apply G; repeat first [exact Bc | exact Bt | apply K].
Qed.

End LoadDataFacts.

Lemma load_data_requires_both_witness :
  exists_file_sample "../data/raw/customers.csv" = true
  /\ exists_file_sample "../data/raw/transactions.csv" = true
  /\ has_key unit "customers" [("customers", tt); ("transactions", tt)]%string
  /\ has_key unit "transactions" [("customers", tt); ("transactions", tt)]%string.
Proof.
  apply (load_data_requires_both unit exists_file_sample
           (fun _ => Some tt) (fun _ df => Some df)).
  vm_compute. reflexivity.
Defined.

Lemma load_data_succeeds_witness :
  exists datasets,
    load_data unit exists_file_sample (fun _ => Some tt) (fun _ df => Some df)
    = Some datasets.
Proof.
  apply load_data_succeeds; try reflexivity; discriminate.
Defined.

(** ** At most one transaction in ten is flagged *)

Lemma Qsum_shift (c : Q) (l : list Q) :
  Qsum (map (fun x => x - c) l) == Qsum l - inject_Z (len l) * c.
Proof.
  induction l as [|x l IH].
  - simpl. rewrite Qsum_nil. change (inject_Z (len (@nil Q))) with 0. ring.
  - cbn [map]. rewrite !Qsum_cons, IH.
    assert (E : inject_Z (len (x :: l)) == inject_Z (len l) + 1).
    { unfold len. simpl List.length. rewrite Nat2Z.inj_succ, <- Z.add_1_r.
      now rewrite inject_Z_plus. }
    rewrite E. ring.
Qed.

Lemma Qsum_deviations (l : list Q) :
  l <> [] ->
  Qsum (map (fun x => x - Qsum l / inject_Z (len l)) l) == 0.
Proof.
  intros N. rewrite Qsum_shift.
  assert (P : ~ inject_Z (len l) == 0).
  { intros E. assert (X : 0 < inject_Z (len l)).
    { change 0 with (inject_Z 0). rewrite <- Zlt_Qlt. unfold len.
      destruct l; [congruence|simpl List.length; lia]. }
    rewrite E in X. now apply Qlt_irrefl in X. }
  field. exact P.
Qed.

Lemma Qsum_filter_split (f : Q -> Q) (p : Q -> bool) (l : list Q) :
  Qsum (map f l)
  == Qsum (map f (filter p l)) + Qsum (map f (filter (fun x => negb (p x)) l)).
Proof.
  induction l as [|x l IH].
  - simpl. rewrite Qsum_nil. ring.
  - cbn [map filter]. rewrite Qsum_cons, IH.
    destruct (p x); cbn [negb map]; rewrite Qsum_cons; ring.
Qed.

Lemma len_filter_negb {A : Type} (p : A -> bool) (l : list A) :
  len l = (len (filter p l) + len (filter (fun x => negb (p x)) l))%Z.
Proof.
  apply len_filter_cover; intros x _; destruct (p x); reflexivity.
Qed.

(** Cauchy-Schwarz against the constant vector. *)
Lemma Qsum_square_le (l : list Q) :
  Qsum l * Qsum l <= inject_Z (len l) * Qsum (map (fun x => x * x) l).
Proof.
  assert (G : forall (c : Q) (l : list Q),
             0 <= inject_Z (len l) * (c * c) - 2 * c * Qsum l
                  + Qsum (map (fun x => x * x) l)).
  { intros c l0. induction l0 as [|y l0 IH].
    - simpl. rewrite !Qsum_nil. change (inject_Z (len (@nil Q))) with 0. Lqa.lra.
    - cbn [map]. rewrite !Qsum_cons.
      assert (E : inject_Z (len (y :: l0)) == inject_Z (len l0) + 1).
      { unfold len. simpl List.length. rewrite Nat2Z.inj_succ, <- Z.add_1_r.
        now rewrite inject_Z_plus. }
      rewrite E.
      assert (S : 0 <= (c - y) * (c - y)).
      { generalize (c - y). intros z. unfold Qle, Qmult. simpl.
        rewrite Z.mul_1_r. apply Z.square_nonneg. }
      assert (X : (inject_Z (len l0) + 1) * (c * c) - 2 * c * (y + Qsum l0)
                  + (y * y + Qsum (map (fun x => x * x) l0))
                  == (inject_Z (len l0) * (c * c) - 2 * c * Qsum l0
                      + Qsum (map (fun x => x * x) l0)) + (c - y) * (c - y)) by ring.
      rewrite X. Lqa.lra. }
  induction l as [|x l IH].
  - simpl. rewrite !Qsum_nil. change (inject_Z (len (@nil Q))) with 0. Lqa.lra.
  - cbn [map]. rewrite !Qsum_cons.
    assert (E : inject_Z (len (x :: l)) == inject_Z (len l) + 1).
    { unfold len. simpl List.length. rewrite Nat2Z.inj_succ, <- Z.add_1_r.
      now rewrite inject_Z_plus. }
    rewrite E. specialize (G x l).
    assert (X : (inject_Z (len l) + 1) * (x * x + Qsum (map (fun x0 => x0 * x0) l))
                - (x + Qsum l) * (x + Qsum l)
                == (inject_Z (len l) * Qsum (map (fun x0 => x0 * x0) l)
                    - Qsum l * Qsum l)
                   + (inject_Z (len l) * (x * x) - 2 * x * Qsum l
                      + Qsum (map (fun x0 => x0 * x0) l))) by ring.
    assert (Y : 0 <= (inject_Z (len l) + 1) * (x * x + Qsum (map (fun x0 => x0 * x0) l))
                     - (x + Qsum l) * (x + Qsum l)).
    { rewrite X. Lqa.lra. }
    Lqa.lra.
Qed.

Section FarAboveTheMean.

Variable w : Q.
Hypothesis w_nonneg : 0 <= w.

Lemma far_product (a b : Q) : far w a -> far w b -> w < a * b.
Proof.
  intros [Pa Wa] [Pb Wb].
  apply Qnot_le_lt. intros L.
  assert (P : 0 < a * b) by (apply Qmult_lt_0_compat; assumption).
  assert (S1 : (a * b) * (a * b) <= w * w).
  { apply Qle_trans with (w * (a * b)).
    - apply Qmult_le_compat_r; [exact L|Lqa.lra].
    - apply Qmult_le_nonneg_l; assumption. }
  assert (S2 : w * w < (a * a) * (b * b)).
  { apply Qle_lt_trans with (w * (b * b)).
    - apply Qmult_le_nonneg_l; [exact w_nonneg|Lqa.lra].
    - apply Qmult_lt_compat_r; [Lqa.lra|exact Wa]. }
  assert (E : (a * b) * (a * b) == (a * a) * (b * b)) by ring.
  Lqa.lra.
Qed.

Lemma far_times_sum (d : Q) (l : list Q) :
  far w d -> Forall (far w) l -> inject_Z (len l) * w <= d * Qsum l.
Proof.
  intros Hd. induction 1 as [|x l Hx _ IH].
  - rewrite Qsum_nil. change (inject_Z (len (@nil Q))) with 0. Lqa.lra.
  - rewrite Qsum_cons.
    assert (E : inject_Z (len (x :: l)) == inject_Z (len l) + 1).
    { unfold len. simpl List.length. rewrite Nat2Z.inj_succ, <- Z.add_1_r.
      now rewrite inject_Z_plus. }
    rewrite E. pose proof (far_product d x Hd Hx).
    assert (X : d * (x + Qsum l) == d * x + d * Qsum l) by ring.
    Lqa.lra.
Qed.

Lemma sum_times (c T : Q) (l : list Q) :
  (forall d, In d l -> c <= d * T) -> inject_Z (len l) * c <= Qsum l * T.
Proof.
  induction l as [|x l IH]; intros H.
  - rewrite Qsum_nil. change (inject_Z (len (@nil Q))) with 0. Lqa.lra.
  - rewrite Qsum_cons.
    assert (E : inject_Z (len (x :: l)) == inject_Z (len l) + 1).
    { unfold len. simpl List.length. rewrite Nat2Z.inj_succ, <- Z.add_1_r.
      now rewrite inject_Z_plus. }
    rewrite E. pose proof (H x (or_introl eq_refl)).
    assert (I : inject_Z (len l) * c <= Qsum l * T)
      by (apply IH; intros; apply H; now right).
    assert (X : (x + Qsum l) * T == x * T + Qsum l * T) by ring.
    Lqa.lra.
Qed.

Lemma far_sum_square (l : list Q) :
  Forall (far w) l ->
  inject_Z (len l) * (inject_Z (len l) * w) <= Qsum l * Qsum l.
Proof.
  intros F. apply sum_times. intros d Hd.
  rewrite Forall_forall in F. apply far_times_sum; [now apply F|].
  now apply Forall_forall.
Qed.

Lemma far_sum_pos (l : list Q) : Forall (far w) l -> l <> [] -> 0 < Qsum l.
Proof.
  induction 1 as [|x l [Hx _] Hl IH]; [congruence|]. intros _.
  rewrite Qsum_cons. destruct l as [|y l].
  - rewrite Qsum_nil. Lqa.lra.
  - assert (0 < Qsum (y :: l)) by (apply IH; discriminate). Lqa.lra.
Qed.

Lemma far_squares (l : list Q) :
  Forall (far w) l -> l <> [] ->
  inject_Z (len l) * w < Qsum (map (fun x => x * x) l).
Proof.
  induction 1 as [|x l [_ Hx] Hl IH]; [congruence|]. intros _.
  cbn [map]. rewrite Qsum_cons.
  assert (E : inject_Z (len (x :: l)) == inject_Z (len l) + 1).
  { unfold len. simpl List.length. rewrite Nat2Z.inj_succ, <- Z.add_1_r.
    now rewrite inject_Z_plus. }
  rewrite E. destruct l as [|y l].
  - cbn [map]. rewrite Qsum_nil. change (inject_Z (len (@nil Q))) with 0. Lqa.lra.
  - assert (inject_Z (len (y :: l)) * w < Qsum (map (fun x0 => x0 * x0) (y :: l)))
      by (apply IH; discriminate).
    Lqa.lra.
Qed.

End FarAboveTheMean.

Lemma above_sigma_far (d v : Q) : above_sigma d 3 v = true <-> far (3 * 3 * v) d.
Proof.
  unfold above_sigma, far. rewrite andb_true_iff, !negb_true_iff.
  rewrite <- !not_true_iff_false, !Qle_bool_iff. split.
  - intros [H1 H2]. split; now apply Qnot_le_lt.
  - intros [H1 H2]. split; now apply Qlt_not_le.
Qed.

Lemma filter_Forall_far (v : Q) (ds : list Q) :
  Forall (far (3 * 3 * v)) (filter (fun d => above_sigma d 3 v) ds).
Proof.
  apply Forall_forall. intros d Hd. apply filter_In in Hd.
  now apply above_sigma_far.
Qed.

(** The counting argument: among [n] deviations that add up to zero and
    whose squares add up to [(n - 1) * v], fewer than [n / 10] are far
    above three standard deviations. *)
Lemma far_deviations_are_rare (ds : list Q) (v : Q) :
  0 <= v ->
  Qsum ds == 0 ->
  Qsum (map (fun x => x * x) ds) == (inject_Z (len ds) - 1) * v ->
  let flagged := filter (fun d => above_sigma d 3 v) ds in
  flagged <> [] -> (10 * len flagged < len ds)%Z.
Proof.
  intros V S0 S2 flagged N.
  set (rest := filter (fun d => negb (above_sigma d 3 v)) ds).
  set (w := 3 * 3 * v).
  assert (W : 0 <= w) by (unfold w; Lqa.lra).
  assert (F : Forall (far w) flagged) by apply filter_Forall_far.
  pose proof (far_sum_pos w flagged F N) as Tpos.
  pose proof (far_sum_square w W flagged F) as TT.
  pose proof (far_squares w flagged F N) as SA.
  pose proof (Qsum_square_le rest) as CS.
  assert (E1 : Qsum flagged + Qsum rest == 0).
  { pose proof (Qsum_filter_split (fun x => x) (fun d => above_sigma d 3 v) ds) as H.
    rewrite !map_id in H.
    transitivity (Qsum ds); [symmetry; exact H|exact S0]. }
  assert (E2 : Qsum (map (fun x => x * x) flagged) + Qsum (map (fun x => x * x) rest)
               == (inject_Z (len ds) - 1) * v).
  { pose proof (Qsum_filter_split (fun x => x * x) (fun d => above_sigma d 3 v) ds) as H.
    transitivity (Qsum (map (fun x => x * x) ds)); [symmetry; exact H|exact S2]. }
  assert (EL : len ds = (len flagged + len rest)%Z)
    by exact (len_filter_negb (fun d => above_sigma d 3 v) ds).
  set (k := len flagged) in *. set (m := len rest) in *. set (n := len ds) in *.
  set (T := Qsum flagged) in *. set (Sa := Qsum (map (fun x => x * x) flagged)) in *.
  set (Sb := Qsum (map (fun x => x * x) rest)) in *.
  assert (Kpos : (1 <= k)%Z).
  { unfold k, len. destruct flagged; [congruence|simpl List.length; lia]. }
  assert (Mnn : (0 <= m)%Z) by apply len_nonneg.
  assert (TB : T * T <= inject_Z m * Sb).
  { assert (X : Qsum rest == - T) by Lqa.lra.
    assert (Y : Qsum rest * Qsum rest == T * T) by (rewrite X; ring).
    now rewrite <- Y. }
  assert (Tsq : 0 < T * T) by (apply Qmult_lt_0_compat; assumption).
  assert (Mpos : (1 <= m)%Z).
  { destruct (Z.eq_dec m 0) as [M0|M0]; [|lia].
    exfalso. rewrite M0 in TB. change (inject_Z 0) with 0 in TB. Lqa.lra. }
  assert (QM : 1 <= inject_Z m).
  { change 1 with (inject_Z 1). now rewrite <- Zle_Qle. }
  assert (QK : 1 <= inject_Z k).
  { change 1 with (inject_Z 1). now rewrite <- Zle_Qle. }
  assert (QN : inject_Z n == inject_Z k + inject_Z m).
  { rewrite EL, inject_Z_plus. reflexivity. }
  assert (MSa : inject_Z m * (inject_Z k * w) < inject_Z m * Sa).
  { rewrite (Qmult_comm (inject_Z m) (inject_Z k * w)), (Qmult_comm (inject_Z m) Sa).
    apply Qmult_lt_compat_r; [Lqa.lra|exact SA]. }
  assert (Key : inject_Z k * inject_Z n * w < inject_Z m * ((inject_Z n - 1) * v)).
  { rewrite <- E2.
    assert (X : inject_Z m * (Sa + Sb) == inject_Z m * Sa + inject_Z m * Sb) by ring.
    assert (Y : inject_Z k * inject_Z n * w
                == inject_Z m * (inject_Z k * w) + inject_Z k * (inject_Z k * w)).
    { rewrite QN. ring. }
    rewrite X, Y. Lqa.lra. }
  assert (Key' : 0 < (inject_Z m * (inject_Z n - 1) - 9 * (inject_Z k * inject_Z n)) * v).
  { assert (X : (inject_Z m * (inject_Z n - 1) - 9 * (inject_Z k * inject_Z n)) * v
                == inject_Z m * ((inject_Z n - 1) * v) - inject_Z k * inject_Z n * w).
    { unfold w. ring. }
    rewrite X. Lqa.lra. }
  assert (C : 0 < inject_Z m * (inject_Z n - 1) - 9 * (inject_Z k * inject_Z n)).
  { apply Qnot_le_lt. intros L.
    assert (X : (inject_Z m * (inject_Z n - 1) - 9 * (inject_Z k * inject_Z n)) * v <= 0).
    { rewrite <- (Qmult_0_l v). now apply Qmult_le_compat_r. }
    Lqa.lra. }
  assert (CZ : (0 < m * (n - 1) - 9 * (k * n))%Z).
  { rewrite Zlt_Qlt.
    unfold Z.sub. rewrite !inject_Z_plus, !inject_Z_opp, !inject_Z_mult, !inject_Z_plus.
    change (inject_Z 9) with 9. change (inject_Z 1) with 1.
    rewrite inject_Z_opp. change (inject_Z 1) with 1.
    assert (X : inject_Z m * (inject_Z n + - (1)) + - (9 * (inject_Z k * inject_Z n))
                == inject_Z m * (inject_Z n - 1) - 9 * (inject_Z k * inject_Z n)) by ring.
    rewrite X. exact C. }
  nia.
Qed.


(** ** Unguarded growth and row order *)

(** X21: with at least two buckets and no revenue in the first one, the
    call still succeeds and the reported revenue_growth is not a finite
    number (an infinity, or NaN when the last bucket has no revenue
    either). *)
Theorem revenue_growth_not_finite (d : Data) (p : string) (r : AnalyticsData) :
  get_revenue_analytics (Some d) p = Ok r ->
  let revenues := map revenue (revenue_trends r) in
  (2 <= List.length revenues)%nat ->
  hd 0 revenues == 0 ->
  Float.is_finite (revenue_growth (summary r)) = false.
Proof.
  intros E revenues L Z0.
  apply get_revenue_analytics_inv in E. destruct E as [_ [_ [_ G]]].
  rewrite G. fold revenues. unfold revenue_growth_of.
  assert (E : (1 <? len revenues)%Z = true) by (unfold len; apply Z.ltb_lt; lia).
  rewrite E. unfold Float.div.
  assert (B : Qeq_bool (hd 0 revenues) 0 = true) by now apply Qeq_bool_iff.
  rewrite B. unfold Float.signed_inf.
  destruct (last revenues 0 ?= 0); reflexivity.
Qed.

Lemma revenue_growth_not_finite_witness :
  exists r, get_revenue_analytics (Some zero_first_data) "daily" = Ok r
    /\ Float.is_finite (revenue_growth (summary r)) = false.
Proof.
  run_call.
  match goal with
  | |- Float.is_finite (revenue_growth (summary ?x)) = false =>
      apply (revenue_growth_not_finite zero_first_data "daily" x);
      [vm_compute; reflexivity|vm_compute; lia|reflexivity]
  end.
Defined.

Lemma filter_length_perm {A : Type} (f : A -> bool) (l l' : list A) :
  Permutation l l' -> List.length (filter f l) = List.length (filter f l').
Proof.
  induction 1 as [|x l l' _ IH|x y l|l l' l'' _ IH1 _ IH2]; simpl.
  - reflexivity.
  - destruct (f x); simpl; now rewrite IH.
  - destruct (f x), (f y); reflexivity.
  - now rewrite IH1.
Qed.

Lemma filter_perm {A : Type} (f : A -> bool) (l l' : list A) :
  Permutation l l' -> Permutation (filter f l) (filter f l').
Proof.
  induction 1 as [|x l l' _ IH|x y l|l l' l'' _ IH1 _ IH2]; simpl.
  - constructor.
  - destruct (f x); [now constructor|exact IH].
  - destruct (f x), (f y); try reflexivity. apply perm_swap.
  - now transitivity (filter f l').
Qed.

Lemma max_date_perm (l l' : list Transaction) :
  Permutation l l' -> max_date l = max_date l'.
Proof.
  intros P. destruct l as [|t l].
  - apply Permutation_nil in P. now subst.
  - assert (N : t :: l <> []) by discriminate.
    assert (N' : l' <> []).
    { intros ->. apply Permutation_sym, Permutation_nil in P. discriminate. }
    destruct (max_date_attained _ N) as [a [Ia Ea]].
    destruct (max_date_attained _ N') as [b [Ib Eb]].
    assert (transaction_date a <= max_date l')%Z.
    { apply max_date_upper. eapply Permutation_in; eauto. }
    assert (transaction_date b <= max_date (t :: l))%Z.
    { apply max_date_upper. eapply Permutation_in; [symmetry|]; eauto. }
    lia.
Qed.

Lemma churn_ids_perm (txs txs' : list Transaction) :
  Permutation txs txs' -> Permutation (churn_ids txs) (churn_ids txs').
Proof.
  intros P. apply NoDup_Permutation; try apply churn_ids_NoDup.
  intros c. rewrite !churn_ids_In. split; intros [t [I E]]; exists t; split; auto.
  - eapply Permutation_in; eauto.
  - eapply Permutation_in; [symmetry|]; eauto.
Qed.

(** X22: the churn metrics do not depend on the row order of
    Transactions: permuting the rows leaves every field unchanged. *)
Theorem churn_ignores_row_order (cs : list Customer) (txs txs' : list Transaction)
        (now : timestamp) :
  Permutation txs txs' ->
  get_churn_metrics (Some {| customers := cs; transactions := txs' |}) now
  = get_churn_metrics (Some {| customers := cs; transactions := txs |}) now.
Proof.
  intros P. unfold get_churn_metrics, try_except. f_equal.
  unfold churn_metrics. cbn [customers transactions].
  rewrite !days_since_last_map, !len_filter_map.
  assert (D : forall c, days_since_last txs' now c = days_since_last txs now c).
  { intros c. unfold days_since_last. f_equal.
    apply max_date_perm, filter_perm. now symmetry. }
  assert (F : forall g : Z -> bool,
             len (filter (fun c => g (days_since_last txs' now c)) (churn_ids txs'))
             = len (filter (fun c => g (days_since_last txs now c)) (churn_ids txs))).
  { intros g. unfold len. f_equal.
    rewrite (filter_ext _ (fun c => g (days_since_last txs now c)))
      by (intros c; now rewrite D).
    apply filter_length_perm, churn_ids_perm. now symmetry. }
  now rewrite !F.
Qed.

Lemma churn_ignores_row_order_witness :
  get_churn_metrics
    (Some {| customers := []; transactions := rev (transactions two_days_data) |}) 0
  = get_churn_metrics
      (Some {| customers := []; transactions := transactions two_days_data |}) 0.
Proof.
  apply churn_ignores_row_order. apply Permutation_rev.
Defined.
